(** * Shallow embedding of [scripts/upload-assets.js]

    The script runs inside github-script: it parses its inputs, resolves a
    release (indexed lookup by tag, then a paginated listing that includes
    drafts), expands glob patterns into a deduplicated list of regular
    files, uploads them one after another (deleting and retrying on a name
    conflict when overwriting is allowed) and finally sets the
    [download_urls] output.

    The remote service, the file system and [JSON.parse] are parameters;
    the logging sink ([core]) is an explicit trace of events; early exits
    ([core.setFailed(..); return] and [throw]) are an exception layer of a
    small state monad. *)

From Stdlib Require Import String Ascii List Bool ZArith Arith Lia.
Import ListNotations.

Local Open Scope bool_scope.
Set Warnings "-register-all".

(** ** JavaScript values and strings *)

(** JSON values, as [JSON.parse] produces them. *)
Inductive json : Type :=
| JNull
| JBool (b : bool)
| JNum (z : Z)
| JStr (s : string)
| JArr (l : list json)
| JObj (kv : list (string * json)).

(** A raw action input: [undefined] or a JSON-like value. *)
Inductive jsval : Type :=
| JsUndefined
| JsJson (j : json).

(** [v === s] for a string literal [s]. *)
Definition js_eq_str (v : jsval) (s : string) : bool :=
  match v with
  | JsJson (JStr s') => String.eqb s' s
  | _ => false
  end.

(** [v === b] for a boolean literal [b]. *)
Definition js_eq_bool (v : jsval) (b : bool) : bool :=
  match v with
  | JsJson (JBool b') => Bool.eqb b' b
  | _ => false
  end.

(** JS truthiness of a string: non-empty. *)
Definition truthy (s : string) : bool := negb (String.eqb s "").

(** White space removed by [String.prototype.trim]: the one-byte code
    points TAB, LF, VT, FF, CR and SPACE. *)
Definition is_ws (c : ascii) : bool :=
  match nat_of_ascii c with
  | 9 | 10 | 11 | 12 | 13 | 32 => true
  | _ => false
  end.

(** The other code points [String.prototype.trim] removes (ECMAScript's
    WhiteSpace and LineTerminator: U+00A0, U+1680, U+2000-U+200A, U+2028,
    U+2029, U+202F, U+205F, U+3000 and U+FEFF), as the UTF-8 bytes they
    occupy in a string. *)
Definition ws_utf8 : list (list ascii) :=
  map (map ascii_of_nat)
    ([[194; 160]; [225; 154; 128]] ++
     map (fun k => [226; 128; 128 + k]) (seq 0 11) ++
     [[226; 128; 168]; [226; 128; 169]; [226; 128; 175]; [226; 129; 159];
      [227; 128; 128]; [239; 187; 191]]).

(** [l] without its prefix [p], if [p] is one. *)
Fixpoint drop_prefix (p l : list ascii) : option (list ascii) :=
  match p, l with
  | [], _ => Some l
  | c :: p', d :: l' => if Ascii.eqb c d then drop_prefix p' l' else None
  | _ :: _, [] => None
  end.

(** [l] without the first of the sequences [seqs] it starts with. *)
Fixpoint drop_first (seqs : list (list ascii)) (l : list ascii) : option (list ascii) :=
  match seqs with
  | [] => None
  | p :: ps => match drop_prefix p l with Some r => Some r | None => drop_first ps l end
  end.

(** One white-space code point at the front of [l], removed; [seqs] are
    the multi-byte ones. *)
Definition drop_ws (seqs : list (list ascii)) (l : list ascii) : option (list ascii) :=
  match l with
  | [] => None
  | c :: r => if is_ws c then Some r else drop_first seqs l
  end.

(** Leading white space removed, one code point at a time; each step
    removes at least one byte, so [length l] steps are enough
    ([strip_ws_done] below). *)
Fixpoint strip_ws (seqs : list (list ascii)) (fuel : nat) (l : list ascii) : list ascii :=
  match fuel with
  | O => l
  | S f => match drop_ws seqs l with Some r => strip_ws seqs f r | None => l end
  end.

Definition ltrim (s : string) : string :=
  let l := list_ascii_of_string s in
  string_of_list_ascii (strip_ws ws_utf8 (length l) l).

(** Trailing white space: the leading white space of the reversed bytes,
    against the reversed sequences. *)
Definition rtrim (s : string) : string :=
  let l := rev (list_ascii_of_string s) in
  string_of_list_ascii (rev (strip_ws (map (@rev ascii) ws_utf8) (length l) l)).

(** [s.trim()] *)
Definition trim (s : string) : string := rtrim (ltrim s).

(** [s] neither starts nor ends with white space [trim] removes. *)
Definition trimmed (s : string) : Prop :=
  drop_ws ws_utf8 (list_ascii_of_string s) = None /\
  drop_ws (map (@rev ascii) ws_utf8) (rev (list_ascii_of_string s)) = None.

(** [s.startsWith(p)] *)
Definition starts_with (p s : string) : bool := String.prefix p s.

(** [s.replace(pat, rep)] with a string pattern: first occurrence only. *)
Definition replace_first (pat rep s : string) : string :=
  match String.index 0 pat s with
  | Some i =>
      (substring 0 i s ++ rep ++
       substring (i + String.length pat) (String.length s - (i + String.length pat)) s)%string
  | None => s
  end.

(** [s.includes(sub)] *)
Definition includes (s sub : string) : bool :=
  match String.index 0 sub s with
  | Some _ => true
  | None => false
  end.

(** [path.basename(p)] (POSIX): the last non-empty segment after
    trailing slashes are removed. *)
Definition slash : ascii := "/"%char.

Fixpoint drop_slashes (l : list ascii) : list ascii :=
  match l with
  | c :: r => if Ascii.eqb c slash then drop_slashes r else l
  | [] => []
  end.

Fixpoint take_segment (l : list ascii) : list ascii :=
  match l with
  | c :: r => if Ascii.eqb c slash then [] else c :: take_segment r
  | [] => []
  end.

Definition basename (p : string) : string :=
  string_of_list_ascii
    (rev (take_segment (drop_slashes (rev (list_ascii_of_string p))))).

(** Decimal rendering of a length, for log lines. *)
Fixpoint nat_to_string_aux (fuel n : nat) (acc : string) : string :=
  match fuel with
  | O => acc
  | S f =>
      let acc' := String (ascii_of_nat (48 + n mod 10)) acc in
      if n <? 10 then acc' else nat_to_string_aux f (n / 10) acc'
  end.

Definition nat_to_string (n : nat) : string := nat_to_string_aux (S n) n "".

Definition newline : string := String (ascii_of_nat 10) EmptyString.

(** The emoji U+274C and U+2705 of the messages, as UTF-8 bytes. *)
Definition cross_mark : string :=
  String (ascii_of_nat 226) (String (ascii_of_nat 157) (String (ascii_of_nat 140) EmptyString)).
Definition check_mark : string :=
  String (ascii_of_nat 226) (String (ascii_of_nat 156) (String (ascii_of_nat 133) EmptyString)).

(** Rendering of a possibly-null string inside a template literal. *)
Definition js_str_opt (o : option string) : string :=
  match o with Some s => s | None => "null" end.

(** [a === s] where [a] may be [null]. *)
Definition opt_eq_str (o : option string) (s : string) : bool :=
  match o with Some s' => String.eqb s' s | None => false end.

(** ** Data model *)

(** A release asset: [{ id, name, browser_download_url }]. *)
Record asset : Type := mk_asset {
  asset_id : Z;
  asset_name : string;
  browser_download_url : string
}.

(** A release as returned by the REST API; [rel_name] may be [null]. *)
Record release : Type := mk_release {
  release_id : Z;
  tag_name : string;
  rel_name : option string;
  assets : list asset;
  draft : bool
}.

(** An exception thrown by a library call: Octokit errors carry an HTTP
    [status], others (file system, [TypeError]) do not. *)
Record js_error : Type := mk_error {
  status : option Z;
  message : string
}.

Definition bytes : Type := list Byte.byte.

(** The collaborators of the script: the REST endpoints of [github.rest.repos]
    over a service state [S] (only uploads and deletions change it), and the
    file-system helpers ([glob.create(p).glob()], [fs.statSync(p).isFile()],
    [fs.readFileSync(p)]). [inl] is a thrown error. *)
Record service (S : Type) : Type := mk_service {
  getReleaseByTag : string -> S -> js_error + release;
  listReleases : Z -> Z -> S -> js_error + list release;  (* per_page, page *)
  uploadReleaseAsset : Z -> string -> bytes -> S -> (js_error + asset) * S;
  deleteReleaseAsset : Z -> S -> (js_error + unit) * S;
  globFiles : string -> S -> js_error + list string;
  statIsFile : string -> S -> js_error + bool;
  readFileSync : string -> S -> js_error + bytes
}.

Arguments getReleaseByTag {S}.
Arguments listReleases {S}.
Arguments uploadReleaseAsset {S}.
Arguments deleteReleaseAsset {S}.
Arguments globFiles {S}.
Arguments statIsFile {S}.
Arguments readFileSync {S}.

(** The parameters the action passes to the script. [context_ref] is
    [context.ref]. *)
Record inputs : Type := mk_inputs {
  assetPathsInput : string;
  releaseTag : string;
  releaseName : string;
  denyOverwrite : jsval;
  context_ref : string
}.

(** ** Observable events *)

(** Calls to collaborators; the first four reach the remote service. *)
Inductive call : Type :=
| CallGetReleaseByTag (tag : string)
| CallListReleases (per_page page : Z)
| CallUpload (rid : Z) (name : string)
| CallDelete (aid : Z)
| CallGlob (pattern : string)
| CallStat (p : string)
| CallRead (p : string).

Definition is_remote (c : call) : bool :=
  match c with
  | CallGetReleaseByTag _ | CallListReleases _ _ | CallUpload _ _ | CallDelete _ => true
  | _ => false
  end.

(** The effects of [core] and the calls made, in order. [SetOutput] carries
    the value given to [JSON.stringify]. *)
Inductive event : Type :=
| Info (s : string)
| Warning (s : string)
| Error (s : string)
| SetFailed (s : string)
| SetOutput (key : string) (value : json)
| Summary (heading : string) (items : list string)
| Call (c : call).

(** ** A state and exception monad *)

(** How the async function ends early: [core.setFailed(msg); return], a
    [throw], or (only in the model) the listing loop running out of fuel. *)
Inductive exit : Type :=
| Fail (msg : string)
| Thrown (e : js_error)
| OutOfFuel.

Record st (S : Type) : Type := mk_st {
  svc_state : S;
  trace : list event
}.
Arguments mk_st {S}.
Arguments svc_state {S}.
Arguments trace {S}.

Definition M (S A : Type) : Type := st S -> (exit + A) * st S.

Definition ret {S A} (a : A) : M S A := fun s => (inr a, s).

Definition bind {S A B} (m : M S A) (k : A -> M S B) : M S B :=
  fun s => match m s with
           | (inl x, s') => (inl x, s')
           | (inr a, s') => k a s'
           end.

Notation "x <- m ;; k" := (bind m (fun x => k))
  (at level 61, m at next level, right associativity).
Notation "m ;;; k" := (bind m (fun _ => k))
  (at level 61, right associativity).

Definition emit {S} (ev : event) : M S unit :=
  fun s => (inr tt, mk_st (svc_state s) (trace s ++ [ev])).

Definition throw {S A} (e : js_error) : M S A := fun s => (inl (Thrown e), s).

(** [core.setFailed(msg); return;] *)
Definition fail_return {S A} (msg : string) : M S A :=
  emit (SetFailed msg) ;;; (fun s => (inl (Fail msg), s)).

(** A call that may change the service state; its error is returned, not
    thrown, so that the caller can catch it. *)
Definition perform {S A} (c : call) (op : S -> (js_error + A) * S) : M S (js_error + A) :=
  emit (Call c) ;;;
  (fun s => let (r, x') := op (svc_state s) in (inr r, mk_st x' (trace s))).

(** A call that only reads. *)
Definition query {S A} (c : call) (op : S -> js_error + A) : M S (js_error + A) :=
  perform c (fun x => (op x, x)).

(** [await f()] without a [try]: an error propagates. *)
Definition or_throw {S A} (r : js_error + A) : M S A :=
  match r with inl e => throw e | inr a => ret a end.

Definition when {S} (b : bool) (m : M S unit) : M S unit :=
  if b then m else ret tt.

(** ** Messages of the script *)

Definition msg_parse (emsg : string) : string :=
  "Failed to parse asset_paths as JSON: " ++ emsg.
Definition msg_not_array : string := "asset_paths must be a non-empty JSON array".
Definition msg_no_target : string :=
  "No release_tag or release_name provided and workflow not triggered by tag push".
Definition msg_mismatch (found : option string) (expected : string) : string :=
  "Release name mismatch: found '" ++ js_str_opt found ++ "' but expected '" ++ expected ++ "'".
Definition msg_not_found (targetTag name : string) : string :=
  if truthy targetTag && truthy name then
    "No release found with tag '" ++ targetTag ++ "' and name '" ++ name ++ "'"
  else if truthy targetTag then
    "No release found with tag '" ++ targetTag ++ "'"
  else
    "No release found with name '" ++ name ++ "'".
Definition msg_no_files : string := "No files found to upload".
Definition msg_deny (fileName : string) : string :=
  "Error: Overwriting artifacts is not prohibited " ++ cross_mark ++ newline ++
  "Asset '" ++ fileName ++ "' already exists in this release." ++ newline ++
  "Set 'deny_overwrite: false' to allow replacing existing assets.".

Definition msg_uploading (fileName : string) (content : bytes) : string :=
  "Uploading: " ++ fileName ++ " (" ++ nat_to_string (length content) ++ " bytes)".
Definition msg_uploaded (fileName : string) : string := check_mark ++ " Uploaded: " ++ fileName.
Definition msg_overwrite (fileName : string) : string :=
  "Glob wildcard overwriting existing file " ++ fileName.
Definition msg_deleted (fileName : string) : string := "Deleted existing asset: " ++ fileName.
Definition msg_asset_missing (fileName : string) : string :=
  "Asset " ++ fileName ++ " not found in release assets list".

(** Reading a property of [undefined]. *)
Definition type_error (prop : string) : js_error :=
  mk_error None ("Cannot read properties of undefined (reading '" ++ prop ++ "')").

Definition msg_replace_failed (fileName : string) (e : js_error) : string :=
  "Failed to replace " ++ fileName ++ ": " ++ message e.
Definition msg_upload_failed (fileName : string) (e : js_error) : string :=
  "Failed to upload " ++ fileName ++ ": " ++ message e.

(** [error.status === code] *)
Definition status_is (e : js_error) (code : Z) : bool :=
  match status e with Some c => Z.eqb c code | None => false end.

(** [error.status === 422 && error.message.includes('already_exists')] *)
Definition is_conflict (e : js_error) : bool :=
  status_is e 422 && includes (message e) "already_exists".

(** Line 22: [denyOverwrite === 'true' || denyOverwrite === true]. *)
Definition denyOverwriteBool (v : jsval) : bool :=
  js_eq_str v "true" || js_eq_bool v true.

(** [Array.isArray(v)] together with the elements. *)
Definition as_array (v : json) : option (list json) :=
  match v with JArr l => Some l | _ => None end.

(** The release criterion of the listing search (lines 124-132). *)
Definition matches_criterion (targetTag name : string) (r : release) : bool :=
  if truthy targetTag && truthy name then
    String.eqb (tag_name r) targetTag && opt_eq_str (rel_name r) name
  else if truthy targetTag then
    String.eqb (tag_name r) targetTag
  else
    opt_eq_str (rel_name r) name.

(** [[...new Set(xs)]]: insertion order, first occurrence kept. *)
Definition set_add (s : list string) (x : string) : list string :=
  if existsb (String.eqb x) s then s else s ++ [x].

Definition dedup (xs : list string) : list string := fold_left set_add xs [].

Definition per_page : Z := 100.

(** The result of input parsing. *)
Record parsed : Type := mk_parsed {
  assetPaths : list json;
  targetTag : string;
  trimmedReleaseName : string;
  denyBool : bool
}.

Section Script.

Context {St : Type} (svc : service St) (JSON_parse : string -> string + json).
Context (owner repo : string).

(** Lines 21-61. *)
Definition parse_inputs (i : inputs) : M St parsed :=
  let deny := denyOverwriteBool (denyOverwrite i) in
  match JSON_parse (assetPathsInput i) with
  | inl emsg => fail_return (msg_parse emsg)
  | inr v =>
      match as_array v with
      | None | Some [] => fail_return msg_not_array
      | Some paths =>
          let tag0 := trim (releaseTag i) in
          let name := trim (releaseName i) in
          let finish (tag : string) : M St parsed :=
            when (truthy tag) (emit (Info ("Target release tag: " ++ tag))) ;;;
            when (truthy name) (emit (Info ("Target release name: " ++ name))) ;;;
            ret (mk_parsed paths tag name deny) in
          if negb (truthy tag0) then
            if starts_with "refs/tags/" (context_ref i) then
              finish (replace_first "refs/tags/" "" (context_ref i))
            else if negb (truthy name) then fail_return msg_no_target
            else finish tag0
          else finish tag0
      end
  end.

(** The [while (!found)] loop of lines 112-158, with fuel. *)
Fixpoint list_loop (tag name : string) (fuel : nat) (page : Z) : M St (option release) :=
  match fuel with
  | O => fun s => (inl OutOfFuel, s)
  | S f =>
      r <- query (CallListReleases per_page page) (listReleases svc per_page page) ;;
      releases <- or_throw r ;;
      match find (matches_criterion tag name) releases with
      | Some rel =>
          emit (Info ((if truthy tag && truthy name then "Found release by tag and name: "
                       else if truthy tag then "Found release by tag: "
                       else "Found release by name: ") ++
                      js_str_opt (rel_name rel) ++ " (" ++ tag_name rel ++ ")")) ;;;
          ret (Some rel)
      | None =>
          if Z.ltb (Z.of_nat (length releases)) per_page then ret None
          else list_loop tag name f (page + 1)
      end
  end.

(** Lines 63-176: [None] is the [undefined] release that is left when
    neither a tag nor a name remains. *)
Definition resolve_release (fuel : nat) (p : parsed) : M St (option release) :=
  let tag := targetTag p in
  let name := trimmedReleaseName p in
  first <-
    (if truthy tag then
       emit (Info ("Attempting to fetch release by tag: " ++ tag)) ;;;
       emit (Info ("Repository: " ++ owner ++ "/" ++ repo)) ;;;
       r <- query (CallGetReleaseByTag tag) (getReleaseByTag svc tag) ;;
       match r with
       | inr rel =>
           emit (Info ("Found release by tag: " ++ js_str_opt (rel_name rel) ++
                       " (" ++ tag_name rel ++ ")")) ;;;
           if truthy name && negb (opt_eq_str (rel_name rel) name) then
             fail_return (msg_mismatch (rel_name rel) name)
           else ret (Some rel)
       | inl e =>
           if status_is e 404 then
             emit (Info "Release not found by tag API (might be draft), searching all releases...") ;;;
             ret None
           else throw e
       end
     else ret None) ;;
  match first with
  | Some rel => ret (Some rel)
  | None =>
      if truthy tag || truthy name then
        emit (Info "Searching all releases (including drafts)...") ;;;
        found <- list_loop tag name fuel 1 ;;
        match found with
        | Some rel => ret (Some rel)
        | None => fail_return (msg_not_found tag name)
        end
      else ret None
  end.

(** [glob.create(pattern, { followSymbolicLinks: false })] then
    [globber.glob()]; [glob.create] takes a string, any other array element
    is rejected with a [TypeError]. *)
Definition glob_pattern (pattern : json) : M St (list string) :=
  match pattern with
  | JStr p => r <- query (CallGlob p) (globFiles svc p) ;; or_throw r
  | _ => throw (mk_error None "patterns.split is not a function")
  end.

(** Lines 187-193: keep the matches whose [fs.statSync(match).isFile()]. *)
Fixpoint filter_files (ms : list string) (files : list string) : M St (list string) :=
  match ms with
  | [] => ret files
  | m :: rest =>
      r <- query (CallStat m) (statIsFile svc m) ;;
      isf <- or_throw r ;;
      filter_files rest (if isf then files ++ [m] else files)
  end.

Definition pattern_text (pattern : json) : string :=
  match pattern with JStr p => p | _ => "" end.

(** Lines 179-201: the [for (const pattern of assetPaths)] loop. *)
Fixpoint collect_patterns (ps : list json) (filesToUpload : list string) : M St (list string) :=
  match ps with
  | [] => ret filesToUpload
  | pattern :: rest =>
      ms <- glob_pattern pattern ;;
      files <- filter_files ms [] ;;
      if Nat.eqb (length files) 0 then
        emit (Warning ("No files matched pattern: " ++ pattern_text pattern)) ;;;
        collect_patterns rest filesToUpload
      else
        emit (Info ("Pattern '" ++ pattern_text pattern ++ "' matched " ++
                    nat_to_string (length files) ++ " file(s)")) ;;;
        collect_patterns rest (filesToUpload ++ files)
  end.

(** Property reads on the possibly [undefined] release. *)
Definition release_id_of (release : option release) : js_error + Z :=
  match release with Some r => inr (release_id r) | None => inl (type_error "id") end.
Definition release_assets_of (release : option release) : js_error + list asset :=
  match release with Some r => inr (assets r) | None => inl (type_error "assets") end.

(** [uploadReleaseAsset({ release_id: release.id, name, data })]: the
    property read happens inside the [try]. *)
Definition upload_call (release : option release) (fileName : string) (content : bytes)
  : M St (js_error + asset) :=
  match release_id_of release with
  | inl e => ret (inl e)
  | inr rid => perform (CallUpload rid fileName) (uploadReleaseAsset svc rid fileName content)
  end.

(** The inner [try] block of lines 252-278; [inl] is what it throws. *)
Definition replace_existing (release : option release) (fileName : string) (content : bytes)
    (error : js_error) (downloadUrls : list string) : M St (js_error + list string) :=
  match release_assets_of release with
  | inl e => ret (inl e)
  | inr known =>
      match find (fun a => String.eqb (asset_name a) fileName) known with
      | Some existingAsset =>
          d <- perform (CallDelete (asset_id existingAsset))
                       (deleteReleaseAsset svc (asset_id existingAsset)) ;;
          match d with
          | inl e => ret (inl e)
          | inr _ =>
              emit (Info (msg_deleted fileName)) ;;;
              r <- upload_call release fileName content ;;
              match r with
              | inl e => ret (inl e)
              | inr a =>
                  emit (Info (msg_uploaded fileName)) ;;;
                  ret (inr (downloadUrls ++ [browser_download_url a]))
              end
          end
      | None =>
          emit (Error (msg_asset_missing fileName)) ;;;
          ret (inl error)
      end
  end.

(** One iteration of the upload loop (lines 221-287). *)
Definition upload_one (release : option release) (deny : bool) (filePath : string)
    (downloadUrls : list string) : M St (list string) :=
  let fileName := basename filePath in
  rc <- query (CallRead filePath) (readFileSync svc filePath) ;;
  content <- or_throw rc ;;
  emit (Info (msg_uploading fileName content)) ;;;
  r <- upload_call release fileName content ;;
  match r with
  | inr a =>
      emit (Info (msg_uploaded fileName)) ;;;
      ret (downloadUrls ++ [browser_download_url a])
  | inl error =>
      if is_conflict error then
        if deny then
          emit (SetFailed (msg_deny fileName)) ;;; throw error
        else
          emit (Warning (msg_overwrite fileName)) ;;;
          r2 <- replace_existing release fileName content error downloadUrls ;;
          match r2 with
          | inl retryError =>
              emit (Error (msg_replace_failed fileName retryError)) ;;;
              throw retryError
          | inr urls => ret urls
          end
      else
        emit (Error (msg_upload_failed fileName error)) ;;;
        throw error
  end.

Fixpoint upload_all (release : option release) (deny : bool) (files : list string)
    (downloadUrls : list string) : M St (list string) :=
  match files with
  | [] => ret downloadUrls
  | f :: rest =>
      urls <- upload_one release deny f downloadUrls ;;
      upload_all release deny rest urls
  end.

(** Lines 203-217: deduplication and the [NoFilesFound] check. *)
Definition plan_uploads (filesToUpload : list string) : M St (list string) :=
  let unique := dedup filesToUpload in
  (if Nat.eqb (length unique) 0 then fail_return msg_no_files else ret tt) ;;;
  when (negb (Nat.eqb (length filesToUpload) (length unique)))
    (emit (Warning ("Removed " ++ nat_to_string (length filesToUpload - length unique) ++
                    " duplicate file(s) from overlapping glob patterns"))) ;;;
  emit (Info ("Total files to upload: " ++ nat_to_string (length unique))) ;;;
  ret unique.

(** Lines 290-302: the output and the step summary. The summary's
    [write()] is not awaited by the script and is kept as one event. *)
Definition report (release : option release) (downloadUrls : list string) : M St unit :=
  emit (SetOutput "download_urls" (JArr (map JStr downloadUrls))) ;;;
  emit (Info (check_mark ++ " Successfully uploaded " ++
              nat_to_string (length downloadUrls) ++ " asset(s)")) ;;;
  match release with
  | None => throw (type_error "name")
  | Some rel =>
      emit (Summary ("Release: " ++ js_str_opt (rel_name rel) ++ " (" ++ tag_name rel ++ ")")
              (map (fun url : string => ("[" ++ basename url ++ "](" ++ url ++ ")")%string)
                   downloadUrls))
  end.

(** The whole script; [fuel] bounds the listing loop. *)
Definition run (fuel : nat) (i : inputs) : M St unit :=
  p <- parse_inputs i ;;
  release <- resolve_release fuel p ;;
  filesToUpload <- collect_patterns (assetPaths p) [] ;;
  unique <- plan_uploads filesToUpload ;;
  downloadUrls <- upload_all release (denyBool p) unique [] ;;
  report release downloadUrls.

(** Running the script from service state [x0] with an empty trace. *)
Definition exec (fuel : nat) (i : inputs) (x0 : St) : (exit + unit) * st St :=
  run fuel i (mk_st x0 []).

End Script.

(** ** A concrete service: a repository's releases as the REST API serves them *)

Module GitHub.

Inductive fs_entry : Type :=
| FileE (content : bytes)
| DirE.

Record state : Type := mk_state {
  releases : list release;           (* in the listing's order, drafts included *)
  next_asset_id : Z;
  files : list (string * fs_entry);  (* the runner's file system *)
  glob_table : list (string * list string)  (* what each pattern expands to *)
}.

Fixpoint lookup {A} (k : string) (l : list (string * A)) : option A :=
  match l with
  | [] => None
  | (k', v) :: r => if String.eqb k k' then Some v else lookup k r
  end.

Definition not_found : js_error := mk_error (Some 404%Z) "Not Found".
Definition already_exists : js_error :=
  mk_error (Some 422%Z) "Validation Failed: {resource: ReleaseAsset, code: already_exists, field: name}".

Definition download_url (tag name : string) : string :=
  "https://github.com/owner/repo/releases/download/" ++ tag ++ "/" ++ name.

(** The indexed lookup does not see drafts. *)
Definition get_by_tag (tag : string) (x : state) : js_error + release :=
  match find (fun r => negb (draft r) && String.eqb (tag_name r) tag) (releases x) with
  | Some r => inr r
  | None => inl not_found
  end.

(** Page [page] (from 1) of [pp] releases. *)
Definition list_page (pp page : Z) (x : state) : js_error + list release :=
  inr (firstn (Z.to_nat pp) (skipn (Z.to_nat ((page - 1) * pp)) (releases x))).

Definition set_assets (rid : Z) (f : list asset -> list asset) (x : state) : list release :=
  map (fun r => if Z.eqb (release_id r) rid
                then mk_release (release_id r) (tag_name r) (rel_name r) (f (assets r)) (draft r)
                else r) (releases x).

Definition upload (rid : Z) (name : string) (_ : bytes) (x : state) : (js_error + asset) * state :=
  match find (fun r => Z.eqb (release_id r) rid) (releases x) with
  | None => (inl not_found, x)
  | Some r =>
      if existsb (fun a => String.eqb (asset_name a) name) (assets r) then (inl already_exists, x)
      else
        let a := mk_asset (next_asset_id x) name (download_url (tag_name r) name) in
        (inr a, mk_state (set_assets rid (fun l => l ++ [a]) x) (next_asset_id x + 1)
                         (files x) (glob_table x))
  end.

Definition delete (aid : Z) (x : state) : (js_error + unit) * state :=
  if existsb (fun r => existsb (fun a => Z.eqb (asset_id a) aid) (assets r)) (releases x) then
    (inr tt, mk_state (map (fun r => mk_release (release_id r) (tag_name r) (rel_name r)
                                       (filter (fun a => negb (Z.eqb (asset_id a) aid)) (assets r))
                                       (draft r)) (releases x))
                      (next_asset_id x) (files x) (glob_table x))
  else (inl not_found, x).

Definition enoent (p : string) : js_error :=
  mk_error None ("ENOENT: no such file or directory, '" ++ p ++ "'").

Definition glob (p : string) (x : state) : js_error + list string :=
  match lookup p (glob_table x) with Some ms => inr ms | None => inr [] end.

Definition stat_is_file (p : string) (x : state) : js_error + bool :=
  match lookup p (files x) with
  | Some (FileE _) => inr true
  | Some DirE => inr false
  | None => inl (enoent p)
  end.

Definition read (p : string) (x : state) : js_error + bytes :=
  match lookup p (files x) with
  | Some (FileE c) => inr c
  | Some DirE => inl (mk_error None "EISDIR: illegal operation on a directory, read")
  | None => inl (enoent p)
  end.

Definition svc : service state :=
  mk_service state get_by_tag list_page upload delete glob stat_is_file read.

End GitHub.

(** ** A [JSON.parse] for arrays, strings without escapes, [true], [false],
    [null], natural numbers and the empty object *)

Module Json.

Definition dq : ascii := ascii_of_nat 34.

Fixpoint skip_ws (l : list ascii) : list ascii :=
  match l with
  | c :: r => if is_ws c then skip_ws r else l
  | [] => []
  end.

Fixpoint string_body (l : list ascii) (acc : list ascii) : option (string * list ascii) :=
  match l with
  | [] => None
  | c :: r => if Ascii.eqb c dq then Some (string_of_list_ascii acc, r)
              else string_body r (acc ++ [c])
  end.

Definition is_digit (c : ascii) : bool :=
  (48 <=? nat_of_ascii c) && (nat_of_ascii c <=? 57).

Fixpoint number (l : list ascii) (acc : Z) : Z * list ascii :=
  match l with
  | c :: r => if is_digit c then number r (acc * 10 + Z.of_nat (nat_of_ascii c - 48)) else (acc, l)
  | [] => (acc, [])
  end.

Fixpoint value (fuel : nat) (l : list ascii) : option (json * list ascii) :=
  match fuel with
  | O => None
  | S f =>
      match l with
      | c :: r =>
          if Ascii.eqb c dq then
            match string_body r [] with Some (s, r') => Some (JStr s, r') | None => None end
          else if Ascii.eqb c "["%char then
            match skip_ws r with
            | c' :: r' => if Ascii.eqb c' "]"%char then Some (JArr [], r') else elements f (skip_ws r) []
            | [] => None
            end
          else if Ascii.eqb c "{"%char then
            match skip_ws r with
            | c' :: r' => if Ascii.eqb c' "}"%char then Some (JObj [], r') else None
            | [] => None
            end
          else if is_digit c then
            let (z, r') := number l 0 in Some (JNum z, r')
          else
            match l with
            | "t"%char :: "r"%char :: "u"%char :: "e"%char :: r' => Some (JBool true, r')
            | "f"%char :: "a"%char :: "l"%char :: "s"%char :: "e"%char :: r' => Some (JBool false, r')
            | "n"%char :: "u"%char :: "l"%char :: "l"%char :: r' => Some (JNull, r')
            | _ => None
            end
      | [] => None
      end
  end
with elements (fuel : nat) (l : list ascii) (acc : list json) : option (json * list ascii) :=
  match fuel with
  | O => None
  | S f =>
      match value f l with
      | Some (v, r) =>
          match skip_ws r with
          | c :: r' =>
              if Ascii.eqb c ","%char then elements f (skip_ws r') (acc ++ [v])
              else if Ascii.eqb c "]"%char then Some (JArr (acc ++ [v]), r')
              else None
          | [] => None
          end
      | None => None
      end
  end.

Definition parse (s : string) : string + json :=
  let l := list_ascii_of_string s in
  match value (S (length l)) (skip_ws l) with
  | Some (v, r) =>
      match skip_ws r with
      | [] => inr v
      | _ => inl "Unexpected non-whitespace character after JSON"%string
      end
  | None => inl "Unexpected token in JSON"%string
  end.

(** [quote s] is the JSON text of the string [s]. *)
Definition quote (s : string) : string := String dq (s ++ String dq EmptyString).

End Json.

(** ** Example repositories *)

Module Examples.

Local Open Scope string_scope.

Definition byte_a : bytes := [Byte.x61].
Definition byte_b : bytes := [Byte.x62].

Definition inputs_for (pattern tag name : string) (deny : jsval) (ref : string) : inputs :=
  mk_inputs ("[" ++ Json.quote pattern ++ "]") tag name deny ref.

(** A published release [v1.0.0] without assets, and two archives. *)
Definition rel_v1 : release := mk_release 1 "v1.0.0" (Some "Good Name") [] false.
Definition dist_state : GitHub.state :=
  GitHub.mk_state [rel_v1] 100
    [("dist/a.tar.gz", GitHub.FileE byte_a); ("dist/b.tar.gz", GitHub.FileE byte_b);
     ("dist/sub", GitHub.DirE)]
    [("dist/*.tar.gz", ["dist/a.tar.gz"; "dist/b.tar.gz"]);
     ("dist/*", ["dist/a.tar.gz"; "dist/b.tar.gz"; "dist/sub"])].
Definition dist_inputs : inputs :=
  inputs_for "dist/*.tar.gz" "v1.0.0" "" (JsJson (JStr "true")) "refs/heads/main".

(** The same repository with no release at all. *)
Definition empty_state : GitHub.state :=
  GitHub.mk_state [] 100 [] [].
Definition missing_inputs : inputs :=
  inputs_for "missing/*.zip" "v1.0.0" "" (JsJson (JStr "true")) "refs/heads/main".

(** A published [v1.0.0] named [Good Name] and a draft with the same tag
    named [Bad Name]. *)
Definition rel_draft_bad : release := mk_release 2 "v1.0.0" (Some "Bad Name") [] true.
Definition mismatch_state : GitHub.state :=
  GitHub.mk_state [rel_draft_bad; rel_v1] 100 [] [].
Definition mismatch_inputs : inputs :=
  inputs_for "dist/*.tar.gz" "v1.0.0" "Bad Name" (JsJson (JStr "true")) "refs/heads/main".

(** The file-system view of [dist_state]: pattern expansion and the
    regular-file test. *)
Definition dist_glob (p : string) : list string :=
  match GitHub.lookup p (GitHub.glob_table dist_state) with Some l => l | None => [] end.
Definition dist_is_file (m : string) : bool :=
  match GitHub.stat_is_file m dist_state with inr b => b | inl _ => false end.

(** [v1.0.0] already holding an asset [a.tar.gz]. *)
Definition asset_a_old : asset :=
  mk_asset 7 "a.tar.gz" (GitHub.download_url "v1.0.0" "a.tar.gz").
Definition rel_v1_a : release := mk_release 1 "v1.0.0" (Some "Good Name") [asset_a_old] false.
Definition conflict_state : GitHub.state :=
  GitHub.mk_state [rel_v1_a] 100 (GitHub.files dist_state) (GitHub.glob_table dist_state).
Definition replace_inputs : inputs :=
  inputs_for "dist/*.tar.gz" "v1.0.0" "" (JsJson (JStr "false")) "refs/heads/main".

(** 120 published releases, then a draft [v2.0.0] on the second page. *)
Definition published (k : nat) : release :=
  mk_release (Z.of_nat k) ("v0." ++ nat_to_string k) None [] false.
Definition rel_draft_v2 : release := mk_release 500 "v2.0.0" (Some "Two") [] true.
Definition draft_state : GitHub.state :=
  GitHub.mk_state (map published (seq 1 120) ++ [rel_draft_v2]) 1000
    (GitHub.files dist_state) (GitHub.glob_table dist_state).
Definition draft_inputs : inputs :=
  inputs_for "dist/*.tar.gz" "v2.0.0" "" (JsJson (JStr "true")) "refs/heads/main".

(** A blank tag input and a tag-push ref [refs/tags/v1.0.0]. *)
Definition tag_push_inputs : inputs :=
  inputs_for "dist/*.tar.gz" "  " "" (JsJson (JStr "true")) "refs/tags/v1.0.0".

(** No tag, no name, and the ref [refs/tags/] with nothing after it. *)
Definition bare_ref_inputs : inputs :=
  inputs_for "dist/*.tar.gz" "" "" (JsJson (JStr "true")) "refs/tags/".

(** The service of [GitHub] while the indexed lookup answers 503. *)
Definition unavailable : js_error := mk_error (Some 503%Z) "Service Unavailable".
Definition outage_svc : service GitHub.state :=
  mk_service GitHub.state (fun _ _ => inl unavailable) GitHub.list_page GitHub.upload
    GitHub.delete GitHub.glob GitHub.stat_is_file GitHub.read.

(** The service of [GitHub] while uploads answer 502. *)
Definition bad_gateway : js_error := mk_error (Some 502%Z) "Bad Gateway".
Definition gateway_svc : service GitHub.state :=
  mk_service GitHub.state GitHub.get_by_tag GitHub.list_page
    (fun _ _ _ x => (inl bad_gateway, x))
    GitHub.delete GitHub.glob GitHub.stat_is_file GitHub.read.

(** The service of [GitHub] on a runner that may not open the files. *)
Definition eacces (p : string) : js_error :=
  mk_error None ("EACCES: permission denied, open '" ++ p ++ "'").
Definition locked_svc : service GitHub.state :=
  mk_service GitHub.state GitHub.get_by_tag GitHub.list_page GitHub.upload
    GitHub.delete GitHub.glob GitHub.stat_is_file (fun p _ => inl (eacces p)).

(** [dist_state] where the pattern also yields a dangling link. *)
Definition dangling_state : GitHub.state :=
  GitHub.mk_state [rel_v1] 100 (GitHub.files dist_state)
    [("dist/*.tar.gz", ["dist/a.tar.gz"; "dist/c.tar.gz"])].

(** The parse of [dist_inputs] and of [draft_inputs]. *)
Definition dist_parsed : parsed := mk_parsed [JStr "dist/*.tar.gz"] "v1.0.0" "" true.
Definition draft_parsed : parsed := mk_parsed [JStr "dist/*.tar.gz"] "v2.0.0" "" true.

(** The service of [GitHub] while the listing answers 503. *)
Definition paging_svc : service GitHub.state :=
  mk_service GitHub.state GitHub.get_by_tag (fun _ _ _ => inl unavailable) GitHub.upload
    GitHub.delete GitHub.glob GitHub.stat_is_file GitHub.read.

(** [v1.0.0] and two files named [a.tar.gz] in two directories. *)
Definition twin_state : GitHub.state :=
  GitHub.mk_state [rel_v1] 100
    [("dist/a.tar.gz", GitHub.FileE byte_a); ("other/a.tar.gz", GitHub.FileE byte_b)]
    [("*/a.tar.gz", ["dist/a.tar.gz"; "other/a.tar.gz"])].

(** U+00A0 NO-BREAK SPACE and U+FEFF ZERO WIDTH NO-BREAK SPACE, as the
    UTF-8 bytes of a string. *)
Definition nbsp : string := String (ascii_of_nat 194) (String (ascii_of_nat 160) EmptyString).
Definition bom : string :=
  String (ascii_of_nat 239) (String (ascii_of_nat 187) (String (ascii_of_nat 191) EmptyString)).

(** The tag [v1.0.0] padded with both. *)
Definition padded_tag_inputs : inputs :=
  inputs_for "dist/*.tar.gz" (nbsp ++ "v1.0.0" ++ bom)%string "" (JsJson (JStr "true"))
    "refs/heads/main".

(** A tag that is a no-break space only, no name, and a branch ref. *)
Definition nbsp_branch_inputs : inputs :=
  inputs_for "dist/*.tar.gz" nbsp "" (JsJson (JStr "true")) "refs/heads/main".

End Examples.

(** ** Views of a run used by the statements *)

(** The run went through parsing, resolution, collection and planning, and
    the upload loop processed the files [pre] of the plan [pre ++ f :: rest]
    successfully, with URL list [urls] and state [s5] just before [f]. *)
Definition reaches_file {St : Type} (svc : service St) (JSON_parse : string -> string + json)
    (owner repo : string) (fuel : nat) (i : inputs) (x0 : St) (p : parsed)
    (rel : option release) (pre : list string) (f : string) (rest : list string)
    (urls : list string) (s5 : st St) : Prop :=
  exists s1 s2 files s3 s4,
    parse_inputs JSON_parse i (mk_st x0 []) = (inr p, s1) /\
    resolve_release svc owner repo fuel p s1 = (inr rel, s2) /\
    collect_patterns svc (assetPaths p) [] s2 = (inr files, s3) /\
    plan_uploads files s3 = (inr (pre ++ f :: rest), s4) /\
    upload_all svc rel (denyBool p) pre [] s4 = (inr urls, s5).

(** The calls of a trace, in order. *)
Fixpoint calls (tr : list event) : list call :=
  match tr with
  | [] => []
  | Call c :: r => c :: calls r
  | _ :: r => calls r
  end.

(** The outputs set in a trace, in order. *)
Fixpoint outputs (tr : list event) : list (string * json) :=
  match tr with
  | [] => []
  | SetOutput k v :: r => (k, v) :: outputs r
  | _ :: r => outputs r
  end.

(** The pages requested from [listReleases], in order. *)
Fixpoint listed_pages (tr : list event) : list Z :=
  match tr with
  | [] => []
  | Call (CallListReleases _ page) :: r => page :: listed_pages r
  | _ :: r => listed_pages r
  end.

(** The collector as the design describes it: deduplication keeping the
    first occurrence of each path, in order. *)
Fixpoint first_occ (l : list string) : list string :=
  match l with
  | [] => []
  | x :: r => x :: filter (fun y => negb (String.eqb y x)) (first_occ r)
  end.

(** Expand each pattern, keep the regular files, concatenate in pattern
    order, then deduplicate. *)
Definition collector_spec (G : string -> list string) (F : string -> bool)
    (ps : list string) : list string :=
  first_occ (concat (map (fun p => filter F (G p)) ps)).

(** Page [page] (from 1) of a listing [all] of releases, 100 per page. *)
Definition page_of (all : list release) (page : Z) : list release :=
  firstn 100 (skipn (Z.to_nat ((page - 1) * 100)) all).

(** The criterion of the listing as the design states it: the tag must match
    when a tag is given, the name when a name is given. *)
Definition criterion_spec (tag name : string) (r : release) : Prop :=
  (truthy tag = true -> tag_name r = tag) /\ (truthy name = true -> rel_name r = Some name).

(** The condition under which the input parser must refuse the inputs:
    [asset_paths] is not JSON, or not a non-empty array, or there is no tag,
    no name, and [context.ref] is not of the form [refs/tags/<tag>]. *)
Definition invalid_input (JSON_parse : string -> string + json) (i : inputs) : Prop :=
  match JSON_parse (assetPathsInput i) with
  | inl _ => True
  | inr v =>
      as_array v = None \/ as_array v = Some [] \/
      (trim (releaseTag i) = ""%string /\ trim (releaseName i) = ""%string /\
       starts_with "refs/tags/" (context_ref i) = false)
  end.

Definition not_call (ev : event) : Prop :=
  match ev with Call _ => False | _ => True end.

(** The event is no call to the remote service. *)
Definition not_remote (ev : event) : Prop :=
  match ev with Call c => is_remote c = false | _ => True end.

(** The event is no [core.setFailed]. *)
Definition not_setfailed (ev : event) : Prop :=
  match ev with SetFailed _ => False | _ => True end.

(** The event is no [fs.readFileSync]. *)
Definition not_read (ev : event) : Prop :=
  match ev with Call (CallRead _) => False | _ => True end.

(** The files read, in order. *)
Fixpoint reads (tr : list event) : list string :=
  match tr with
  | [] => []
  | Call (CallRead p) :: r => p :: reads r
  | _ :: r => reads r
  end.

(** A call the resolver may make for the target tag [tag]: the indexed
    lookup of that tag, only when it is not empty, and pages of the listing
    of [per_page] releases. *)
Definition resolver_call (tag : string) (ev : event) : Prop :=
  match ev with
  | Call (CallGetReleaseByTag t) => truthy tag = true /\ t = tag
  | Call (CallListReleases pp _) => pp = per_page
  | Call _ => False
  | _ => True
  end.

(** The event is no read, upload or deletion. *)
Definition before_upload (ev : event) : Prop :=
  match ev with
  | Call (CallRead _) | Call (CallUpload _ _) | Call (CallDelete _) => False
  | _ => True
  end.

(** A call the upload loop may make for the release [rel], the policy
    [deny] and the plan [files]: uploads to [rel] under the base name of a
    planned file, and deletions, only when overwriting is allowed, of an
    asset of [rel]'s asset list named like a planned file. *)
Definition upload_target (rel : release) (deny : bool) (files : list string) (ev : event)
  : Prop :=
  match ev with
  | Call (CallUpload rid n) => rid = release_id rel /\ exists f, In f files /\ n = basename f
  | Call (CallDelete aid) =>
      deny = false /\
      exists a f, In a (assets rel) /\ asset_id a = aid /\ In f files /\ asset_name a = basename f
  | Call (CallGetReleaseByTag _) | Call (CallListReleases _ _) => False
  | _ => True
  end.

(** Where the [core.setFailed] calls of a result [r] with appended events
    [tr] stand: none when it completes; exactly one, the last event, with
    the message of a [Fail]; for a thrown error none, or one, the last, with
    the conflict message of a denied overwrite. *)
Definition sf_shape {A} (r : exit + A) (tr : list event) : Prop :=
  match r with
  | inl (Fail msg) => exists tr0, tr = tr0 ++ [SetFailed msg] /\ Forall not_setfailed tr0
  | inl (Thrown _) =>
      Forall not_setfailed tr \/
      exists tr0 name, tr = tr0 ++ [SetFailed (msg_deny name)] /\ Forall not_setfailed tr0
  | _ => Forall not_setfailed tr
  end.

(** [m] only reads the service: the state it ends in is the one it started
    from. *)
Definition keeps_state {S A} (m : M S A) : Prop :=
  forall s r s', m s = (r, s') -> svc_state s' = svc_state s.

(** Every run of [m] from an empty trace ends as [sf_shape] says. *)
Definition sf_ok {S A} (m : M S A) : Prop :=
  forall x r s, m (mk_st x []) = (r, s) -> sf_shape r (trace s).

(** ** [trim] removes all the white space it should *)

Lemma drop_prefix_length p l r : drop_prefix p l = Some r -> length r + length p = length l.
Proof.
  revert l. induction p as [| c p IH]; intros [| d l]; simpl; try discriminate.
  - intro H. injection H as <-. reflexivity.
  - intro H. injection H as <-. simpl. lia.
  - destruct (Ascii.eqb c d); [| discriminate]. intro H. apply IH in H. simpl. lia.
Qed.

Lemma drop_ws_shorter seqs l r :
  Forall (fun p => p <> []) seqs -> drop_ws seqs l = Some r -> length r < length l.
Proof.
  intros Hs. destruct l as [| c l]; simpl; [discriminate |].
  destruct (is_ws c); [intro H; injection H as <-; lia |].
  induction Hs as [| p ps Hp _ IH]; simpl; [discriminate |].
  destruct (drop_prefix p (c :: l)) as [r' |] eqn:E; [| exact IH].
  intro H. injection H as <-. apply drop_prefix_length in E.
  destruct p; [contradiction | simpl in E; lia].
Qed.

(** With [length l] steps, [strip_ws] leaves no white space in front. *)
Lemma strip_ws_done seqs n l :
  Forall (fun p => p <> []) seqs -> length l <= n ->
  drop_ws seqs (strip_ws seqs n l) = None.
Proof.
  intros Hs. revert l. induction n as [| n IH]; intros l Hl; simpl.
  - destruct l; [reflexivity | simpl in Hl; lia].
  - destruct (drop_ws seqs l) as [r |] eqn:E; [| exact E].
    apply IH. apply (drop_ws_shorter _ _ _ Hs) in E. lia.
Qed.

Lemma ws_utf8_nonempty : Forall (fun p => p <> []) ws_utf8.
Proof. repeat constructor; discriminate. Qed.

Lemma ws_utf8_rev_nonempty : Forall (fun p => p <> []) (map (@rev ascii) ws_utf8).
Proof. repeat constructor; discriminate. Qed.

Lemma ltrim_done s : drop_ws ws_utf8 (list_ascii_of_string (ltrim s)) = None.
Proof.
  unfold ltrim. rewrite list_ascii_of_string_of_list_ascii.
  apply strip_ws_done; [exact ws_utf8_nonempty | lia].
Qed.

Lemma rtrim_done s :
  drop_ws (map (@rev ascii) ws_utf8) (rev (list_ascii_of_string (rtrim s))) = None.
Proof.
  unfold rtrim. rewrite list_ascii_of_string_of_list_ascii, rev_involutive.
  apply strip_ws_done; [exact ws_utf8_rev_nonempty | lia].
Qed.

Lemma drop_prefix_app p l r y : drop_prefix p l = Some r -> drop_prefix p (l ++ y) = Some (r ++ y).
Proof.
  revert l. induction p as [| c p IH]; intros [| d l]; simpl; try discriminate.
  - intro H. injection H as <-. reflexivity.
  - intro H. injection H as <-. reflexivity.
  - destruct (Ascii.eqb c d); [exact (IH l) | discriminate].
Qed.

Lemma drop_first_app seqs l r y :
  drop_first seqs l = Some r -> exists r', drop_first seqs (l ++ y) = Some r'.
Proof.
  induction seqs as [| p ps IH]; simpl; [discriminate |].
  destruct (drop_prefix p l) as [r0 |] eqn:E.
  - intros _. rewrite (drop_prefix_app _ _ _ y E). eauto.
  - intro H. destruct (IH H) as [r' Hr']. destruct (drop_prefix p (l ++ y)); eauto.
Qed.

(** White space in front of [l] is in front of [l ++ y]. *)
Lemma drop_ws_app seqs l r y : drop_ws seqs l = Some r -> drop_ws seqs (l ++ y) <> None.
Proof.
  destruct l as [| c l]; simpl; [discriminate |].
  destruct (is_ws c); [discriminate |].
  intro H. destruct (drop_first_app seqs (c :: l) r y H) as [r' Hr']. simpl in Hr'.
  rewrite Hr'. discriminate.
Qed.

Lemma drop_prefix_split p l r : drop_prefix p l = Some r -> l = p ++ r.
Proof.
  revert l. induction p as [| c p IH]; intros [| d l]; simpl; try discriminate.
  - intro H. injection H as <-. reflexivity.
  - intro H. injection H as <-. reflexivity.
  - destruct (Ascii.eqb c d) eqn:Ec; [| discriminate].
    apply Ascii.eqb_eq in Ec. subst d. intro H. rewrite (IH l H). reflexivity.
Qed.

Lemma drop_ws_split seqs l r : drop_ws seqs l = Some r -> exists pre, l = pre ++ r.
Proof.
  destruct l as [| c l]; simpl; [discriminate |].
  destruct (is_ws c); [intro H; injection H as <-; exists [c]; reflexivity |].
  induction seqs as [| p ps IH]; simpl; [discriminate |].
  destruct (drop_prefix p (c :: l)) as [r0 |] eqn:E; [| exact IH].
  intro H. injection H as <-. exists p. exact (drop_prefix_split _ _ _ E).
Qed.

(** [strip_ws] only removes a prefix. *)
Lemma strip_ws_suffix seqs n l : exists pre, l = pre ++ strip_ws seqs n l.
Proof.
  revert l. induction n as [| n IH]; intro l; simpl; [exists []; reflexivity |].
  destruct (drop_ws seqs l) as [r |] eqn:E; [| exists []; reflexivity].
  destruct (drop_ws_split _ _ _ E) as [pre ->]. destruct (IH r) as [pre' Hp].
  exists (pre ++ pre'). rewrite <- app_assoc, <- Hp. reflexivity.
Qed.

(** [rtrim] keeps a prefix of its argument. *)
Lemma rtrim_prefix s : exists post, list_ascii_of_string s = list_ascii_of_string (rtrim s) ++ post.
Proof.
  unfold rtrim. rewrite list_ascii_of_string_of_list_ascii.
  set (l := rev (list_ascii_of_string s)).
  destruct (strip_ws_suffix (map (@rev ascii) ws_utf8) (length l) l) as [pre Hp].
  exists (rev pre). rewrite <- rev_app_distr, <- Hp. unfold l. rewrite rev_involutive. reflexivity.
Qed.

(** What [trim] returns starts and ends with no white space. *)
Lemma trim_trimmed s : trimmed (trim s).
Proof.
  split; [| apply rtrim_done].
  unfold trim. destruct (rtrim_prefix (ltrim s)) as [post Hp].
  destruct (drop_ws ws_utf8 (list_ascii_of_string (rtrim (ltrim s)))) as [r |] eqn:E;
    [| reflexivity].
  exfalso. apply (drop_ws_app _ _ _ post E). rewrite <- Hp. apply ltrim_done.
Qed.

(** ** The trace only grows *)

(** [m] reads nothing of the trace and only appends to it: running it
    after a trace [t] is running it from the empty trace, then prefixing
    [t]. *)
Definition appending {S A} (m : M S A) : Prop :=
  forall x t,
    m (mk_st x t) =
    (fst (m (mk_st x [])),
     mk_st (svc_state (snd (m (mk_st x [])))) (t ++ trace (snd (m (mk_st x []))))).

Section Appending.

Context {S : Type}.

Lemma appending_ret {A} (a : A) : appending (S := S) (ret a).
Proof. intros x t. unfold ret. simpl. rewrite app_nil_r. reflexivity. Qed.

Lemma appending_emit (ev : event) : appending (S := S) (emit ev).
Proof. intros x t. reflexivity. Qed.

Lemma appending_throw {A} (e : js_error) : appending (S := S) (A := A) (throw e).
Proof. intros x t. unfold throw. simpl. rewrite app_nil_r. reflexivity. Qed.

Lemma appending_fuel_out {A} : appending (S := S) (A := A) (fun s => (inl OutOfFuel, s)).
Proof. intros x t. simpl. rewrite app_nil_r. reflexivity. Qed.

Lemma appending_bind {A B} (m : M S A) (k : A -> M S B) :
  appending m -> (forall a, appending (k a)) -> appending (bind m k).
Proof.
  intros Hm Hk x t. unfold bind. rewrite Hm.
  destruct (m (mk_st x [])) as [[e | a] [x1 t1]]; simpl.
  - reflexivity.
  - rewrite (Hk a x1 (t ++ t1)), (Hk a x1 t1). simpl.
    rewrite app_assoc. reflexivity.
Qed.

Lemma appending_fail_return {A} (msg : string) : appending (S := S) (A := A) (fail_return msg).
Proof.
  apply appending_bind; [apply appending_emit |].
  intros _ x t. simpl. rewrite app_nil_r. reflexivity.
Qed.

Lemma appending_perform {A} (c : call) (op : S -> (js_error + A) * S) :
  appending (perform c op).
Proof.
  apply appending_bind; [apply appending_emit |].
  intros _ x t. simpl. destruct (op x). simpl. rewrite app_nil_r. reflexivity.
Qed.

Lemma appending_query {A} (c : call) (op : S -> js_error + A) : appending (query c op).
Proof. apply appending_perform. Qed.

Lemma appending_or_throw {A} (r : js_error + A) : appending (S := S) (or_throw r).
Proof. destruct r; [apply appending_throw | apply appending_ret]. Qed.

Lemma appending_when (b : bool) (m : M S unit) : appending m -> appending (when b m).
Proof. destruct b; [auto | intros; apply appending_ret]. Qed.

End Appending.

Create HintDb appending.
#[export] Hint Resolve appending_ret appending_emit appending_throw appending_fuel_out
  appending_fail_return appending_perform appending_query appending_or_throw : appending.

(** Split binds, conditionals and matches until a basic action is left. *)
Ltac appending_step :=
  match goal with
  | |- appending (bind _ _) => apply appending_bind; [| intro]
  | |- appending (when _ _) => apply appending_when
  | |- appending (if ?b then _ else _) => destruct b
  | |- appending (match ?x with _ => _ end) => destruct x
  | |- appending (let (_, _) := ?p in _) => destruct p
  | |- appending _ => solve [eauto with appending]
  end.

Ltac appending_auto := repeat appending_step.

Section ScriptAppending.

Context {St : Type} (svc : service St) (JSON_parse : string -> string + json).
Context (owner repo : string).

Lemma parse_inputs_appending i : appending (parse_inputs (St := St) JSON_parse i).
Proof. unfold parse_inputs. cbv zeta. appending_auto. Qed.

Lemma list_loop_appending tag name fuel page : appending (list_loop svc tag name fuel page).
Proof.
  revert page. induction fuel as [| f IH]; intro page; simpl; appending_auto.
Qed.

Lemma resolve_release_appending fuel p : appending (resolve_release svc owner repo fuel p).
Proof.
  unfold resolve_release. cbv zeta. appending_auto; apply list_loop_appending.
Qed.

Lemma glob_pattern_appending pat : appending (glob_pattern svc pat).
Proof. unfold glob_pattern. appending_auto. Qed.

Lemma filter_files_appending ms files : appending (filter_files svc ms files).
Proof.
  revert files. induction ms as [| m r IH]; intro files; simpl; appending_auto.
Qed.

Lemma collect_patterns_appending ps acc : appending (collect_patterns svc ps acc).
Proof.
  revert acc. induction ps as [| p r IH]; intro acc; simpl; appending_auto;
    auto using glob_pattern_appending, filter_files_appending.
Qed.

Lemma upload_call_appending rel name content : appending (upload_call svc rel name content).
Proof. unfold upload_call. appending_auto. Qed.

Lemma replace_existing_appending rel name content e urls :
  appending (replace_existing svc rel name content e urls).
Proof. unfold replace_existing. appending_auto; apply upload_call_appending. Qed.

Lemma upload_one_appending rel deny f urls : appending (upload_one svc rel deny f urls).
Proof.
  unfold upload_one. cbv zeta. appending_auto;
    auto using upload_call_appending, replace_existing_appending.
Qed.

Lemma upload_all_appending rel deny files urls : appending (upload_all svc rel deny files urls).
Proof.
  revert urls. induction files as [| f r IH]; intro urls; simpl; appending_auto.
  apply upload_one_appending.
Qed.

End ScriptAppending.

Section MonadFacts.

Context {S : Type}.

Lemma bind_inl {A B} (m : M S A) (k : A -> M S B) s x s' :
  m s = (inl x, s') -> bind m k s = (inl x, s').
Proof. intro H. unfold bind. rewrite H. reflexivity. Qed.

Lemma bind_inr {A B} (m : M S A) (k : A -> M S B) s a s' :
  m s = (inr a, s') -> bind m k s = k a s'.
Proof. intro H. unfold bind. rewrite H. reflexivity. Qed.

(** Every event an action appends satisfies [P]. *)
Definition emits_only (P : event -> Prop) {A} (m : M S A) : Prop :=
  forall x, Forall P (trace (snd (m (mk_st x [])))).

Lemma emits_only_bind P {A B} (m : M S A) (k : A -> M S B) :
  (forall a, appending (k a)) ->
  emits_only P m -> (forall a, emits_only P (k a)) -> emits_only P (bind m k).
Proof.
  intros Hk Hm Hk' x. specialize (Hm x). unfold bind.
  destruct (m (mk_st x [])) as [[e | a] [x1 t1]] eqn:E; simpl in *; auto.
  rewrite (Hk a x1 t1). simpl. apply Forall_app. split; auto. apply Hk'.
Qed.

Lemma emits_only_ret P {A} (a : A) : emits_only P (ret (S := S) a).
Proof. intro x. constructor. Qed.

Lemma emits_only_throw P {A} (e : js_error) : emits_only P (throw (S := S) (A := A) e).
Proof. intro x. constructor. Qed.

Lemma emits_only_fuel_out P {A} : emits_only P (A := A) (fun s : st S => (inl OutOfFuel, s)).
Proof. intro x. constructor. Qed.

Lemma emits_only_emit P ev : P ev -> emits_only P (emit (S := S) ev).
Proof. intros H x. simpl. repeat constructor. exact H. Qed.

Lemma emits_only_fail_return P {A} msg :
  P (SetFailed msg) -> emits_only P (fail_return (S := S) (A := A) msg).
Proof. intros H x. simpl. repeat constructor. exact H. Qed.

Lemma emits_only_perform P {A} c (op : S -> (js_error + A) * S) :
  P (Call c) -> emits_only P (perform c op).
Proof. intros H x. unfold perform, bind, emit. simpl. destruct (op x). simpl. auto. Qed.

Lemma emits_only_query P {A} c (op : S -> js_error + A) :
  P (Call c) -> emits_only P (query c op).
Proof. apply emits_only_perform. Qed.

Lemma emits_only_or_throw P {A} (r : js_error + A) : emits_only P (or_throw (S := S) r).
Proof. destruct r; intro x; constructor. Qed.

Lemma emits_only_when P b (m : M S unit) : emits_only P m -> emits_only P (when b m).
Proof. destruct b; simpl; auto. intros _ x. constructor. Qed.

End MonadFacts.

#[export] Hint Resolve parse_inputs_appending list_loop_appending resolve_release_appending
  glob_pattern_appending filter_files_appending collect_patterns_appending
  upload_call_appending replace_existing_appending upload_one_appending
  upload_all_appending : appending.

Definition not_output (ev : event) : Prop :=
  match ev with SetOutput _ _ => False | _ => True end.

Lemma emits_only_from {S A} P (m : M S A) s r s' :
  appending m -> emits_only P m -> m s = (r, s') ->
  Forall P (trace s) -> Forall P (trace s').
Proof.
  destruct s as [x t]. intros Ha He E Ht. rewrite Ha in E. injection E as _ <-. simpl.
  apply Forall_app. split; [exact Ht | apply He].
Qed.

Ltac emits_step :=
  match goal with
  | |- emits_only _ (bind _ _) =>
      apply emits_only_bind; [intro; appending_auto | | intro]
  | |- emits_only _ (when _ _) => apply emits_only_when
  | |- emits_only _ (if ?b then _ else _) => destruct b
  | |- emits_only _ (match ?x with _ => _ end) => destruct x
  | |- emits_only _ (let (_, _) := ?p in _) => destruct p
  | |- emits_only _ (ret _) => apply emits_only_ret
  | |- emits_only _ (throw _) => apply emits_only_throw
  | |- emits_only _ (or_throw _) => apply emits_only_or_throw
  | |- emits_only _ (fun s => (inl OutOfFuel, s)) => apply emits_only_fuel_out
  | |- emits_only _ (emit _) => apply emits_only_emit; simpl; exact I
  | |- emits_only _ (fail_return _) => apply emits_only_fail_return; simpl; exact I
  | |- emits_only _ (perform _ _) => apply emits_only_perform; simpl; exact I
  | |- emits_only _ (query _ _) => apply emits_only_query; simpl; exact I
  end.

Ltac emits_auto := repeat emits_step.

Section NoOutput.

Context {St : Type} (svc : service St) (JSON_parse : string -> string + json).
Context (owner repo : string).

Lemma parse_inputs_quiet i : emits_only not_output (parse_inputs (St := St) JSON_parse i).
Proof. unfold parse_inputs. cbv zeta. emits_auto. Qed.

Lemma list_loop_quiet tag name fuel page : emits_only not_output (list_loop svc tag name fuel page).
Proof. revert page. induction fuel; intro page; simpl; emits_auto; auto. Qed.

Lemma resolve_release_quiet fuel p : emits_only not_output (resolve_release svc owner repo fuel p).
Proof. unfold resolve_release. cbv zeta. emits_auto. apply list_loop_quiet. Qed.

Lemma glob_pattern_quiet pat : emits_only not_output (glob_pattern svc pat).
Proof. unfold glob_pattern. emits_auto. Qed.

Lemma filter_files_quiet ms files : emits_only not_output (filter_files svc ms files).
Proof. revert files. induction ms; intro files; simpl; emits_auto; auto. Qed.

Lemma collect_patterns_quiet ps acc : emits_only not_output (collect_patterns svc ps acc).
Proof.
  revert acc. induction ps; intro acc; simpl; emits_auto; auto.
  - apply glob_pattern_quiet.
  - apply filter_files_quiet.
Qed.

Lemma plan_uploads_quiet files : emits_only not_output (plan_uploads (St := St) files).
Proof. unfold plan_uploads. cbv zeta. emits_auto. Qed.

Lemma upload_call_quiet rel name content : emits_only not_output (upload_call svc rel name content).
Proof. unfold upload_call. emits_auto. Qed.

Lemma replace_existing_quiet rel name content e urls :
  emits_only not_output (replace_existing svc rel name content e urls).
Proof. unfold replace_existing. emits_auto. apply upload_call_quiet. Qed.

Lemma upload_one_quiet rel deny f urls : emits_only not_output (upload_one svc rel deny f urls).
Proof.
  unfold upload_one. cbv zeta. emits_auto.
  - apply upload_call_quiet.
  - apply replace_existing_quiet.
Qed.

Lemma upload_all_quiet rel deny files urls : emits_only not_output (upload_all svc rel deny files urls).
Proof.
  revert urls. induction files; intro urls; simpl; emits_auto; auto. apply upload_one_quiet.
Qed.

End NoOutput.

Section RunShape.

Context {St : Type} (svc : service St) (JSON_parse : string -> string + json).
Context (owner repo : string).

Lemma plan_uploads_appending files : appending (plan_uploads (St := St) files).
Proof. unfold plan_uploads. cbv zeta. appending_auto. Qed.

Lemma plan_uploads_inr files s unique s' :
  plan_uploads (St := St) files s = (inr unique, s') -> unique = dedup files /\ unique <> [].
Proof.
  unfold plan_uploads. cbv zeta. unfold bind at 1.
  destruct (Nat.eqb (length (dedup files)) 0) eqn:E.
  - simpl. discriminate.
  - simpl. unfold bind, when, emit, ret.
    destruct (negb _); simpl; intro H; injection H as <- _;
      (split; [reflexivity | intro Hn; rewrite Hn in E; discriminate]).
Qed.

Lemma upload_one_none_fails deny f urls s :
  exists x s', upload_one svc None deny f urls s = (inl x, s').
Proof.
  unfold upload_one. cbv zeta. unfold bind at 1. unfold query, perform, bind, emit.
  simpl. destruct (readFileSync svc f (svc_state s)) as [e | content]; simpl;
    unfold throw; eauto.
Qed.

Lemma upload_all_none_fails deny files urls s :
  files <> [] -> exists x s', upload_all svc None deny files urls s = (inl x, s').
Proof.
  destruct files as [| f r]; [congruence |]. intros _. simpl.
  destruct (upload_one_none_fails deny f urls s) as (x & s' & E).
  exists x, s'. apply bind_inl. exact E.
Qed.

(** A run either fails without having set any output, or went through every
    stage with a release, and set the output once, from the URL list of the
    upload loop. *)
Lemma exec_shape fuel i x0 :
  let (r, s) := exec svc JSON_parse owner repo fuel i x0 in
  match r with
  | inl _ => Forall not_output (trace s)
  | inr _ =>
      exists p rel files unique urls s1 s2 s3 s4 s5 ext,
        parse_inputs JSON_parse i (mk_st x0 []) = (inr p, s1) /\
        resolve_release svc owner repo fuel p s1 = (inr (Some rel), s2) /\
        collect_patterns svc (assetPaths p) [] s2 = (inr files, s3) /\
        plan_uploads files s3 = (inr unique, s4) /\
        upload_all svc (Some rel) (denyBool p) unique [] s4 = (inr urls, s5) /\
        unique = dedup files /\ unique <> [] /\
        Forall not_output (trace s5) /\ Forall not_output ext /\
        s = mk_st (svc_state s5)
              (trace s5 ++ SetOutput "download_urls" (JArr (map JStr urls)) :: ext)
  end.
Proof.
  unfold exec, run.
  pose proof (parse_inputs_quiet JSON_parse i x0) as Q1.
  destruct (parse_inputs JSON_parse i (mk_st x0 [])) as [[e | p] s1] eqn:E1;
    simpl in Q1.
  { rewrite (bind_inl _ _ _ _ _ E1). exact Q1. }
  rewrite (bind_inr _ _ _ _ _ E1).
  destruct (resolve_release svc owner repo fuel p s1) as [[e | rel] s2] eqn:E2;
    pose proof (emits_only_from _ _ _ _ _ (resolve_release_appending svc owner repo fuel p)
                  (resolve_release_quiet svc owner repo fuel p) E2 Q1) as Q2.
  { rewrite (bind_inl _ _ _ _ _ E2). exact Q2. }
  rewrite (bind_inr _ _ _ _ _ E2).
  destruct (collect_patterns svc (assetPaths p) [] s2) as [[e | files] s3] eqn:E3;
    pose proof (emits_only_from _ _ _ _ _ (collect_patterns_appending svc _ _)
                  (collect_patterns_quiet svc _ _) E3 Q2) as Q3.
  { rewrite (bind_inl _ _ _ _ _ E3). exact Q3. }
  rewrite (bind_inr _ _ _ _ _ E3).
  destruct (plan_uploads files s3) as [[e | unique] s4] eqn:E4;
    pose proof (emits_only_from _ _ _ _ _ (plan_uploads_appending files)
                  (plan_uploads_quiet files) E4 Q3) as Q4.
  { rewrite (bind_inl _ _ _ _ _ E4). exact Q4. }
  rewrite (bind_inr _ _ _ _ _ E4).
  destruct (plan_uploads_inr _ _ _ _ E4) as [Hu Hne].
  destruct (upload_all svc rel (denyBool p) unique [] s4) as [[e | urls] s5] eqn:E5;
    pose proof (emits_only_from _ _ _ _ _ (upload_all_appending svc _ _ _ _)
                  (upload_all_quiet svc _ _ _ _) E5 Q4) as Q5.
  { rewrite (bind_inl _ _ _ _ _ E5). exact Q5. }
  rewrite (bind_inr _ _ _ _ _ E5).
  destruct rel as [rel |].
  2: { destruct (upload_all_none_fails (denyBool p) unique [] s4 Hne) as (x & s' & E).
       congruence. }
  unfold report. unfold bind, emit. simpl.
  exists p, rel, files, unique, urls, s1, s2, s3, s4, s5. eexists.
  split; [first [exact E1 | reflexivity] |]. split; [first [exact E2 | reflexivity] |]. split; [first [exact E3 | reflexivity] |].
  split; [first [exact E4 | reflexivity] |]. split; [first [exact E5 | reflexivity] |]. split; [first [exact Hu | reflexivity] |].
  split; [first [exact Hne | reflexivity] |]. split; [first [exact Q5 | reflexivity] |].
  split; [| rewrite <- !app_assoc; reflexivity].
  repeat constructor.
Qed.

End RunShape.

(** ** One iteration of the upload loop *)

Section UploadStep.

Context {St : Type} (svc : service St).
Context (rel : release) (f : string) (urls : list string) (x : St) (t : list event).
Context (content : bytes).

Let name := basename f.
Let rid := release_id rel.

Hypothesis Hread : readFileSync svc f x = inr content.

Lemma upload_one_ok deny a x1 :
  uploadReleaseAsset svc rid name content x = (inr a, x1) ->
  upload_one svc (Some rel) deny f urls (mk_st x t) =
  (inr (urls ++ [browser_download_url a]),
   mk_st x1 (t ++ [Call (CallRead f); Info (msg_uploading name content);
                   Call (CallUpload rid name); Info (msg_uploaded name)])).
Proof.
  intro Hup. unfold upload_one, query, perform, bind, emit, or_throw, ret.
  simpl. rewrite Hread. simpl. unfold upload_call, release_id_of, perform, bind, emit.
  simpl. fold name rid. rewrite Hup. simpl. rewrite <- !app_assoc. reflexivity.
Qed.

Section Conflict.

Variables (e : js_error) (x1 : St).
Hypothesis Hup : uploadReleaseAsset svc rid name content x = (inl e, x1).
Hypothesis Hconf : is_conflict e = true.

Lemma upload_one_conflict_denied :
  upload_one svc (Some rel) true f urls (mk_st x t) =
  (inl (Thrown e),
   mk_st x1 (t ++ [Call (CallRead f); Info (msg_uploading name content);
                   Call (CallUpload rid name); SetFailed (msg_deny name)])).
Proof.
  unfold upload_one, query, perform, bind, emit, or_throw, ret.
  simpl. rewrite Hread. simpl. unfold upload_call, release_id_of, perform, bind, emit.
  simpl. fold name rid. rewrite Hup. simpl. rewrite Hconf. unfold throw.
  cbn [svc_state trace]. rewrite <- !app_assoc. reflexivity.
Qed.

Lemma upload_one_conflict_unknown :
  find (fun a => String.eqb (asset_name a) name) (assets rel) = None ->
  upload_one svc (Some rel) false f urls (mk_st x t) =
  (inl (Thrown e),
   mk_st x1 (t ++ [Call (CallRead f); Info (msg_uploading name content);
                   Call (CallUpload rid name); Warning (msg_overwrite name);
                   Error (msg_asset_missing name); Error (msg_replace_failed name e)])).
Proof.
  intro Hfind. unfold upload_one, query, perform, bind, emit, or_throw, ret.
  simpl. rewrite Hread. simpl. unfold upload_call, release_id_of, perform, bind, emit.
  simpl. fold name rid. rewrite Hup. simpl. rewrite Hconf.
  unfold replace_existing, release_assets_of. simpl. fold name. rewrite Hfind. simpl.
  unfold throw. cbn [svc_state trace]. rewrite <- !app_assoc. reflexivity.
Qed.

Section Known.

Variable existing : asset.
Hypothesis Hfind : find (fun a => String.eqb (asset_name a) name) (assets rel) = Some existing.

Lemma upload_one_conflict_delete_failed e2 x2 :
  deleteReleaseAsset svc (asset_id existing) x1 = (inl e2, x2) ->
  upload_one svc (Some rel) false f urls (mk_st x t) =
  (inl (Thrown e2),
   mk_st x2 (t ++ [Call (CallRead f); Info (msg_uploading name content);
                   Call (CallUpload rid name); Warning (msg_overwrite name);
                   Call (CallDelete (asset_id existing)); Error (msg_replace_failed name e2)])).
Proof.
  intro Hdel. unfold upload_one, query, perform, bind, emit, or_throw, ret.
  simpl. rewrite Hread. simpl. unfold upload_call, release_id_of, perform, bind, emit.
  simpl. fold name rid. rewrite Hup. simpl. rewrite Hconf.
  unfold replace_existing, release_assets_of. simpl. fold name. rewrite Hfind. simpl.
  unfold perform, bind, emit. simpl. rewrite Hdel. simpl. unfold throw. cbn [svc_state trace]. rewrite <- !app_assoc. reflexivity.
Qed.

Lemma upload_one_conflict_retry_failed x2 e3 x3 :
  deleteReleaseAsset svc (asset_id existing) x1 = (inr tt, x2) ->
  uploadReleaseAsset svc rid name content x2 = (inl e3, x3) ->
  upload_one svc (Some rel) false f urls (mk_st x t) =
  (inl (Thrown e3),
   mk_st x3 (t ++ [Call (CallRead f); Info (msg_uploading name content);
                   Call (CallUpload rid name); Warning (msg_overwrite name);
                   Call (CallDelete (asset_id existing)); Info (msg_deleted name);
                   Call (CallUpload rid name); Error (msg_replace_failed name e3)])).
Proof.
  intros Hdel Hup2. unfold upload_one, query, perform, bind, emit, or_throw, ret.
  simpl. rewrite Hread. simpl. unfold upload_call, release_id_of, perform, bind, emit.
  simpl. fold name rid. rewrite Hup. simpl. rewrite Hconf.
  unfold replace_existing, release_assets_of. simpl. fold name. rewrite Hfind. simpl.
  unfold perform, bind, emit. simpl. rewrite Hdel. simpl. unfold upload_call, release_id_of, perform, bind, emit. simpl.
  fold rid. rewrite Hup2. simpl. unfold throw. cbn [svc_state trace]. rewrite <- !app_assoc. reflexivity.
Qed.

Lemma upload_one_conflict_replaced x2 a x3 :
  deleteReleaseAsset svc (asset_id existing) x1 = (inr tt, x2) ->
  uploadReleaseAsset svc rid name content x2 = (inr a, x3) ->
  upload_one svc (Some rel) false f urls (mk_st x t) =
  (inr (urls ++ [browser_download_url a]),
   mk_st x3 (t ++ [Call (CallRead f); Info (msg_uploading name content);
                   Call (CallUpload rid name); Warning (msg_overwrite name);
                   Call (CallDelete (asset_id existing)); Info (msg_deleted name);
                   Call (CallUpload rid name); Info (msg_uploaded name)])).
Proof.
  intros Hdel Hup2. unfold upload_one, query, perform, bind, emit, or_throw, ret.
  simpl. rewrite Hread. simpl. unfold upload_call, release_id_of, perform, bind, emit.
  simpl. fold name rid. rewrite Hup. simpl. rewrite Hconf.
  unfold replace_existing, release_assets_of. simpl. fold name. rewrite Hfind. simpl.
  unfold perform, bind, emit. simpl. rewrite Hdel. simpl. unfold upload_call, release_id_of, perform, bind, emit. simpl.
  fold rid. rewrite Hup2. simpl. rewrite <- !app_assoc. reflexivity.
Qed.

End Known.
End Conflict.
End UploadStep.

(** ** The upload stage inside a run *)

Section UploadStage.

Context {St : Type} (svc : service St) (JSON_parse : string -> string + json).
Context (owner repo : string).

Lemma upload_all_app rel deny pre post urls s urls' s' :
  upload_all svc rel deny pre urls s = (inr urls', s') ->
  upload_all svc rel deny (pre ++ post) urls s = upload_all svc rel deny post urls' s'.
Proof.
  revert urls s. induction pre as [| g pre IH]; intros urls s H; simpl in *.
  - unfold ret in H. congruence.
  - unfold bind in *. destruct (upload_one svc rel deny g urls s) as [[x | u] s1].
    + discriminate.
    + apply IH. exact H.
Qed.

Lemma exec_at_file fuel i x0 p rel pre f rest urls s5 :
  reaches_file svc JSON_parse owner repo fuel i x0 p rel pre f rest urls s5 ->
  exec svc JSON_parse owner repo fuel i x0 =
  bind (upload_all svc rel (denyBool p) (f :: rest) urls) (report rel) s5.
Proof.
  intros (s1 & s2 & files & s3 & s4 & E1 & E2 & E3 & E4 & E5).
  unfold exec, run.
  rewrite (bind_inr _ _ _ _ _ E1), (bind_inr _ _ _ _ _ E2), (bind_inr _ _ _ _ _ E3),
    (bind_inr _ _ _ _ _ E4).
  unfold bind at 1. rewrite (upload_all_app _ _ _ _ _ _ _ _ E5). reflexivity.
Qed.

Lemma exec_file_fails fuel i x0 p rel pre f rest urls s5 x s6 :
  reaches_file svc JSON_parse owner repo fuel i x0 p rel pre f rest urls s5 ->
  upload_one svc rel (denyBool p) f urls s5 = (inl x, s6) ->
  exec svc JSON_parse owner repo fuel i x0 = (inl x, s6).
Proof.
  intros R E. rewrite (exec_at_file _ _ _ _ _ _ _ _ _ _ R). simpl.
  unfold bind. rewrite E. reflexivity.
Qed.

Lemma exec_file_ok fuel i x0 p rel pre f rest urls s5 urls' s6 :
  reaches_file svc JSON_parse owner repo fuel i x0 p rel pre f rest urls s5 ->
  upload_one svc rel (denyBool p) f urls s5 = (inr urls', s6) ->
  exec svc JSON_parse owner repo fuel i x0 =
  bind (upload_all svc rel (denyBool p) rest urls') (report rel) s6.
Proof.
  intros R E. rewrite (exec_at_file _ _ _ _ _ _ _ _ _ _ R). simpl.
  unfold bind. rewrite E. reflexivity.
Qed.

End UploadStage.

Lemma outputs_app l1 l2 : outputs (l1 ++ l2) = outputs l1 ++ outputs l2.
Proof.
  induction l1 as [| ev l1 IH]; simpl; [reflexivity |].
  destruct ev; simpl; rewrite ?IH; reflexivity.
Qed.

Lemma outputs_quiet l : Forall not_output l -> outputs l = [].
Proof.
  induction 1 as [| ev l Hev _ IH]; simpl; [reflexivity |].
  destruct ev; simpl in *; tauto.
Qed.

(** ** Lemmas on the helpers *)

Lemma truthy_false s : truthy s = false <-> s = ""%string.
Proof.
  unfold truthy. destruct (String.eqb_spec s ""%string); simpl; split; congruence.
Qed.

Lemma calls_quiet l : Forall not_call l -> calls l = [].
Proof.
  induction 1 as [| ev l Hev _ IH]; simpl; [reflexivity |].
  destruct ev; simpl in *; tauto.
Qed.

Lemma listed_pages_app l1 l2 : listed_pages (l1 ++ l2) = listed_pages l1 ++ listed_pages l2.
Proof.
  induction l1 as [| ev l1 IH]; [reflexivity |].
  destruct ev as [| | | | | | []]; simpl; rewrite ?IH; reflexivity.
Qed.

Lemma listed_pages_quiet l : Forall not_call l -> listed_pages l = [].
Proof.
  induction 1 as [| ev l Hev _ IH]; [reflexivity |].
  destruct ev; simpl in *; tauto.
Qed.

Lemma filter_filter_and (p q : string -> bool) l :
  filter p (filter q l) = filter (fun y => q y && p y) l.
Proof.
  induction l as [| y l IH]; [reflexivity |]. simpl.
  destruct (q y); simpl; [destruct (p y); simpl |]; rewrite IH; reflexivity.
Qed.

Lemma filter_all_true (l : list string) : filter (fun _ => true) l = l.
Proof. induction l as [| y l IH]; simpl; congruence. Qed.

Lemma fold_set_add l acc :
  fold_left set_add l acc =
  acc ++ filter (fun y => negb (existsb (String.eqb y) acc)) (first_occ l).
Proof.
  induction l as [| x r IH] in acc |- *; simpl; [rewrite app_nil_r; reflexivity |].
  rewrite IH. unfold set_add.
  destruct (existsb (String.eqb x) acc) eqn:Hx; simpl.
  - rewrite filter_filter_and. f_equal. apply filter_ext. intro y.
    destruct (existsb (String.eqb y) acc) eqn:Hy; simpl; rewrite ?andb_false_r, ?andb_true_r;
      [reflexivity |].
    destruct (String.eqb_spec y x); [subst; congruence | reflexivity].
  - rewrite <- app_assoc. simpl. f_equal. f_equal.
    rewrite filter_filter_and. apply filter_ext. intro y.
    rewrite existsb_app. simpl. rewrite orb_false_r.
    destruct (existsb (String.eqb y) acc); simpl; rewrite ?andb_false_r, ?andb_true_r;
      reflexivity.
Qed.

Lemma dedup_first_occ l : dedup l = first_occ l.
Proof. unfold dedup. rewrite fold_set_add. simpl. apply filter_all_true. Qed.

Lemma first_occ_In m l : In m (first_occ l) <-> In m l.
Proof.
  induction l as [| x r IH]; simpl; [tauto |].
  rewrite filter_In, IH. destruct (String.eqb_spec m x); simpl; intuition congruence.
Qed.

Lemma first_occ_NoDup l : NoDup (first_occ l).
Proof.
  induction l as [| x r IH]; simpl; constructor.
  - rewrite filter_In. intros [_ H]. rewrite String.eqb_refl in H. discriminate.
  - apply NoDup_filter. exact IH.
Qed.

Lemma find_app_some {A} (f : A -> bool) l1 l2 a :
  find f l1 = Some a -> find f (l1 ++ l2) = Some a.
Proof.
  induction l1 as [| b l1 IH]; simpl; [discriminate |]. destruct (f b); auto.
Qed.

Lemma find_app_none {A} (f : A -> bool) l1 l2 :
  find f l1 = None -> find f (l1 ++ l2) = find f l2.
Proof.
  induction l1 as [| b l1 IH]; simpl; [reflexivity |]. destruct (f b); [discriminate | auto].
Qed.

Lemma page_of_nat all n : page_of all (Z.of_nat (S n)) = firstn 100 (skipn (100 * n) all).
Proof.
  unfold page_of. f_equal. f_equal.
  replace ((Z.of_nat (S n) - 1) * 100)%Z with (Z.of_nat (100 * n)) by lia.
  apply Nat2Z.id.
Qed.

Lemma opt_eq_str_spec o n : opt_eq_str o n = true <-> o = Some n.
Proof.
  destruct o as [s |]; simpl; [| split; discriminate].
  destruct (String.eqb_spec s n); split; congruence.
Qed.

Lemma dedup_nil files : dedup files = [] <-> files = [].
Proof.
  rewrite dedup_first_occ. destruct files as [| f r]; simpl; split; congruence.
Qed.

(** Closes [run = (inr ?x, ?s)] by evaluating the run. *)
Ltac run_eq :=
  match goal with
  | |- ?l = _ => let v := eval vm_compute in l in
                 transitivity v; [vm_compute; reflexivity | reflexivity]
  end.

(** ** The claims *)

Section Claims.

Context {St : Type} (svc : service St) (JSON_parse : string -> string + json).
Context (owner repo : string).

(** C9: a run that ends in any failure (a [core.setFailed] and [return], a
    thrown error, even after some files were uploaded) has set no output;
    a run that completes has set exactly one output, [download_urls]. *)
Theorem output_only_on_success fuel i x0 :
  let (r, s) := exec svc JSON_parse owner repo fuel i x0 in
  match r with
  | inl _ => outputs (trace s) = []
  | inr _ => exists urls, outputs (trace s) = [("download_urls"%string, JArr (map JStr urls))]
  end.
Proof.
  pose proof (exec_shape svc JSON_parse owner repo fuel i x0) as H.
  destruct (exec svc JSON_parse owner repo fuel i x0) as [[x | u] s].
  - apply outputs_quiet. exact H.
  - destruct H as (p & rel & files & unique & urls & s1 & s2 & s3 & s4 & s5 & ext &
                   _ & _ & _ & _ & _ & _ & _ & Q5 & Qe & ->).
    exists urls. simpl. rewrite outputs_app. simpl.
    rewrite (outputs_quiet _ Q5), (outputs_quiet _ Qe). reflexivity.
Qed.

(** C2: with [denyOverwrite] enabled, when the upload of a file of the plan
    fails with a name-already-exists conflict, the run ends there: it fails
    with the conflict error after [core.setFailed] with the message naming
    the file ([msg_deny]), no later file is read or uploaded, no URL is added
    and no output is set. *)
Theorem deny_overwrite_conflict_aborts fuel i x0 p rel pre f rest urls s5 content e x1 :
  reaches_file svc JSON_parse owner repo fuel i x0 p (Some rel) pre f rest urls s5 ->
  denyBool p = true ->
  readFileSync svc f (svc_state s5) = inr content ->
  uploadReleaseAsset svc (release_id rel) (basename f) content (svc_state s5) = (inl e, x1) ->
  is_conflict e = true ->
  exec svc JSON_parse owner repo fuel i x0 =
  (inl (Thrown e),
   mk_st x1 (trace s5 ++ [Call (CallRead f); Info (msg_uploading (basename f) content);
                          Call (CallUpload (release_id rel) (basename f));
                          SetFailed (msg_deny (basename f))])).
Proof.
  intros R Hdeny Hread Hup Hconf.
  apply (exec_file_fails svc JSON_parse owner repo _ _ _ _ _ _ _ _ _ _ _ _ R).
  rewrite Hdeny. destruct s5 as [x5 t5].
  exact (upload_one_conflict_denied svc rel f urls x5 t5 content Hread e x1 Hup Hconf).
Qed.

(** C3: with [denyOverwrite] disabled, when the upload of a file of the plan
    fails with a name-already-exists conflict: if the release's asset list
    read at resolution has no asset of that name, the run fails with that
    error, without a deletion or a second upload; otherwise that asset is
    deleted, then the upload is retried once; a failed deletion or retry
    ends the run with its error; a successful retry adds exactly one URL for
    the file, the one of the new asset, and the loop goes on with the next
    file. [tr] is what the file adds to the trace. *)
Theorem overwrite_conflict_replaces fuel i x0 p rel pre f rest urls s5 content e x1 :
  reaches_file svc JSON_parse owner repo fuel i x0 p (Some rel) pre f rest urls s5 ->
  denyBool p = false ->
  readFileSync svc f (svc_state s5) = inr content ->
  uploadReleaseAsset svc (release_id rel) (basename f) content (svc_state s5) = (inl e, x1) ->
  is_conflict e = true ->
  (find (fun a => String.eqb (asset_name a) (basename f)) (assets rel) = None ->
   exists tr, exec svc JSON_parse owner repo fuel i x0 = (inl (Thrown e), mk_st x1 (trace s5 ++ tr))
     /\ calls tr = [CallRead f; CallUpload (release_id rel) (basename f)]) /\
  (forall existing,
   find (fun a => String.eqb (asset_name a) (basename f)) (assets rel) = Some existing ->
   (forall e2 x2,
    deleteReleaseAsset svc (asset_id existing) x1 = (inl e2, x2) ->
    exists tr, exec svc JSON_parse owner repo fuel i x0 = (inl (Thrown e2), mk_st x2 (trace s5 ++ tr))
      /\ calls tr = [CallRead f; CallUpload (release_id rel) (basename f);
                     CallDelete (asset_id existing)]) /\
   (forall x2 e3 x3,
    deleteReleaseAsset svc (asset_id existing) x1 = (inr tt, x2) ->
    uploadReleaseAsset svc (release_id rel) (basename f) content x2 = (inl e3, x3) ->
    exists tr, exec svc JSON_parse owner repo fuel i x0 = (inl (Thrown e3), mk_st x3 (trace s5 ++ tr))
      /\ calls tr = [CallRead f; CallUpload (release_id rel) (basename f);
                     CallDelete (asset_id existing); CallUpload (release_id rel) (basename f)]) /\
   (forall x2 a x3,
    deleteReleaseAsset svc (asset_id existing) x1 = (inr tt, x2) ->
    uploadReleaseAsset svc (release_id rel) (basename f) content x2 = (inr a, x3) ->
    exists tr,
      upload_one svc (Some rel) false f urls s5 =
        (inr (urls ++ [browser_download_url a]), mk_st x3 (trace s5 ++ tr)) /\
      calls tr = [CallRead f; CallUpload (release_id rel) (basename f);
                  CallDelete (asset_id existing); CallUpload (release_id rel) (basename f)] /\
      exec svc JSON_parse owner repo fuel i x0 =
        bind (upload_all svc (Some rel) false rest (urls ++ [browser_download_url a]))
             (report (Some rel)) (mk_st x3 (trace s5 ++ tr)))).
Proof.
  intros R Hdeny Hread Hup Hconf. destruct s5 as [x5 t5]. simpl in Hread, Hup.
  split; [| intros existing Hfind; split; [| split]].
  - intro Hnone. eexists. split.
    { apply (exec_file_fails svc JSON_parse owner repo _ _ _ _ _ _ _ _ _ _ _ _ R).
      rewrite Hdeny.
      exact (upload_one_conflict_unknown svc rel f urls x5 t5 content Hread e x1 Hup Hconf
               Hnone). }
    reflexivity.
  - intros e2 x2 Hdel. eexists. split.
    { apply (exec_file_fails svc JSON_parse owner repo _ _ _ _ _ _ _ _ _ _ _ _ R).
      rewrite Hdeny.
      exact (upload_one_conflict_delete_failed svc rel f urls x5 t5 content Hread e x1 Hup
               Hconf existing Hfind e2 x2 Hdel). }
    reflexivity.
  - intros x2 e3 x3 Hdel Hup2. eexists. split.
    { apply (exec_file_fails svc JSON_parse owner repo _ _ _ _ _ _ _ _ _ _ _ _ R).
      rewrite Hdeny.
      exact (upload_one_conflict_retry_failed svc rel f urls x5 t5 content Hread e x1 Hup
               Hconf existing Hfind x2 e3 x3 Hdel Hup2). }
    reflexivity.
  - intros x2 a x3 Hdel Hup2.
    pose proof (upload_one_conflict_replaced svc rel f urls x5 t5 content Hread e x1 Hup Hconf
                  existing Hfind x2 a x3 Hdel Hup2) as E.
    eexists. split; [exact E | split; [reflexivity |]].
    rewrite <- Hdeny in E.
    rewrite (exec_file_ok svc JSON_parse owner repo fuel i x0 p (Some rel) pre f rest urls _ _ _ R E).
    rewrite Hdeny. reflexivity.
Qed.

Lemma parse_inputs_no_call i : emits_only not_call (parse_inputs (St := St) JSON_parse i).
Proof. unfold parse_inputs. cbv zeta. emits_auto. Qed.

Lemma finish_inr (b1 b2 : bool) ev1 ev2 (a : parsed) (s : st St) :
  fst ((when b1 (emit ev1) ;;; when b2 (emit ev2) ;;; ret a) s) = inr a.
Proof. destruct b1, b2; reflexivity. Qed.

(** What a successful parse keeps of the inputs. *)
Lemma parse_inputs_inr i (s : st St) p s' :
  parse_inputs JSON_parse i s = (inr p, s') ->
  denyBool p = denyOverwriteBool (denyOverwrite i) /\
  trimmedReleaseName p = trim (releaseName i) /\
  exists paths, JSON_parse (assetPathsInput i) = inr (JArr paths) /\ paths <> [] /\
                assetPaths p = paths.
Proof.
  unfold parse_inputs. cbv zeta.
  destruct (JSON_parse (assetPathsInput i)) as [emsg | v] eqn:EJ; [discriminate |].
  destruct v; simpl; try discriminate. destruct l as [| j l]; [discriminate |].
  intro E.
  assert (H : forall tag, (when (truthy tag) (emit (Info ("Target release tag: " ++ tag))) ;;;
            when (truthy (trim (releaseName i)))
              (emit (Info ("Target release name: " ++ trim (releaseName i)))) ;;;
            ret (mk_parsed (j :: l) tag (trim (releaseName i))
                   (denyOverwriteBool (denyOverwrite i)))) s = (inr p, s') ->
            p = mk_parsed (j :: l) tag (trim (releaseName i)) (denyOverwriteBool (denyOverwrite i))).
  { intros tag Et. pose proof (finish_inr (truthy tag) (truthy (trim (releaseName i)))
      (Info ("Target release tag: " ++ tag)) (Info ("Target release name: " ++ trim (releaseName i)))
      (mk_parsed (j :: l) tag (trim (releaseName i)) (denyOverwriteBool (denyOverwrite i))) s) as F.
    rewrite Et in F. simpl in F. congruence. }
  destruct (negb (truthy (trim (releaseTag i)))); [destruct (starts_with _ _) |].
  all: try (destruct (negb (truthy (trim (releaseName i)))); [discriminate |]).
  all: apply H in E; subst p; simpl; split; [reflexivity | split; [reflexivity |]];
       exists (j :: l); repeat split; congruence.
Qed.

(** C8: the input parser fails (with [core.setFailed] and [return]) exactly
    when [asset_paths] is not parseable JSON, is not a non-empty array, or
    no tag and no name is supplied and [context.ref] does not have the form
    [refs/tags/<tag>]; its failures are the three [InvalidInput] messages,
    and such a run ends there, having made no call at all (in particular
    none to the remote service). *)
Theorem input_parser_fails_iff fuel i x0 :
  ((exists msg, fst (parse_inputs JSON_parse i (mk_st x0 [])) = inl (Fail msg)) <->
   invalid_input JSON_parse i) /\
  (forall msg, fst (parse_inputs JSON_parse i (mk_st x0 [])) = inl (Fail msg) ->
   ((exists emsg, msg = msg_parse emsg) \/ msg = msg_not_array \/ msg = msg_no_target) /\
   fst (exec svc JSON_parse owner repo fuel i x0) = inl (Fail msg) /\
   calls (trace (snd (exec svc JSON_parse owner repo fuel i x0))) = []).
Proof.
  split.
  - unfold invalid_input, parse_inputs. cbv zeta.
    destruct (JSON_parse (assetPathsInput i)) as [emsg | v].
    { simpl. split; [auto | eauto]. }
    destruct (as_array v) as [[| j l] |] eqn:Ha.
    { simpl. split; [auto | eauto]. }
    2: { simpl. split; [auto | eauto]. }
    destruct (truthy (trim (releaseTag i))) eqn:Ht; cbv beta iota; cbn [negb].
    + rewrite finish_inr. split; [intros [m Hm]; discriminate |].
      intros [H | [H | (H & _)]]; try discriminate.
      apply truthy_false in H. congruence.
    + destruct (starts_with "refs/tags/" (context_ref i)) eqn:Hs.
      * rewrite finish_inr. split; [intros [m Hm]; discriminate |].
        intros [H | [H | (_ & _ & H)]]; congruence.
      * destruct (truthy (trim (releaseName i))) eqn:Hn; cbn [negb].
        -- rewrite finish_inr. split; [intros [m Hm]; discriminate |].
           intros [H | [H | (_ & H & _)]]; try discriminate.
           apply truthy_false in H. congruence.
        -- split; [| intros _; eexists; reflexivity]. intros _. right. right.
           apply truthy_false in Ht, Hn. auto.
  - intros msg Hf. unfold exec, run.
    pose proof (parse_inputs_no_call i x0) as Q.
    destruct (parse_inputs JSON_parse i (mk_st x0 [])) as [r s1] eqn:E.
    simpl in Hf, Q. subst r. rewrite (bind_inl _ _ _ _ _ E). simpl.
    split; [| split; [reflexivity | apply calls_quiet; exact Q]].
    revert E. unfold parse_inputs. cbv zeta.
    destruct (JSON_parse (assetPathsInput i)) as [emsg | v].
    { unfold fail_return, bind, emit. simpl. intro E. injection E as H1 _. subst msg. eauto. }
    destruct (as_array v) as [[| j l] |].
    { unfold fail_return, bind, emit. simpl. intro E. injection E as H1 _. subst msg. auto. }
    2: { unfold fail_return, bind, emit. simpl. intro E. injection E as H1 _. subst msg. auto. }
    intro E. apply (f_equal fst) in E. cbv beta iota in E.
    destruct (negb (truthy (trim (releaseTag i)))); [destruct (starts_with _ _) |].
    all: try (destruct (negb (truthy (trim (releaseName i))))).
    all: cbv beta iota in E; try (rewrite finish_inr in E; discriminate).
    unfold fail_return, bind, emit in E. simpl in E. injection E as H1. subst msg. auto.
Qed.

(** C10: overwrite denial is on exactly for the boolean [true] and the
    string ["true"]; the parsed flag is that value; any other raw value
    ([True], [TRUE], [1], [yes], the empty string, [undefined], ...) gives
    [false], and then a conflicting upload whose asset is in the release's
    list is replaced: the asset is deleted and the file uploaded again. *)
Theorem deny_overwrite_only_true v :
  (denyOverwriteBool v = true <-> v = JsJson (JBool true) \/ v = JsJson (JStr "true")) /\
  (forall i (s : st St) p s', denyOverwrite i = v -> parse_inputs JSON_parse i s = (inr p, s') ->
   denyBool p = denyOverwriteBool v) /\
  map denyOverwriteBool [JsJson (JStr "True"); JsJson (JStr "TRUE"); JsJson (JStr "1");
                         JsJson (JStr "yes"); JsJson (JStr ""); JsUndefined]
    = [false; false; false; false; false; false] /\
  (denyOverwriteBool v = false ->
   forall rel f urls x t content e x1 existing x2 a x3,
   readFileSync svc f x = inr content ->
   uploadReleaseAsset svc (release_id rel) (basename f) content x = (inl e, x1) ->
   is_conflict e = true ->
   find (fun a => String.eqb (asset_name a) (basename f)) (assets rel) = Some existing ->
   deleteReleaseAsset svc (asset_id existing) x1 = (inr tt, x2) ->
   uploadReleaseAsset svc (release_id rel) (basename f) content x2 = (inr a, x3) ->
   exists tr,
     upload_one svc (Some rel) (denyOverwriteBool v) f urls (mk_st x t) =
       (inr (urls ++ [browser_download_url a]), mk_st x3 (t ++ tr)) /\
     calls tr = [CallRead f; CallUpload (release_id rel) (basename f);
                 CallDelete (asset_id existing); CallUpload (release_id rel) (basename f)]).
Proof.
  split; [| split; [| split]].
  - unfold denyOverwriteBool, js_eq_str, js_eq_bool.
    destruct v as [| []]; simpl; try (split; [discriminate | intros [H | H]; discriminate]).
    + destruct b; simpl; split; auto; try discriminate.
      intros [H | H]; discriminate.
    + destruct (String.eqb_spec s "true"); subst; simpl; split; auto; try discriminate.
      intros [H | H]; congruence.
  - intros i s p s' <- E. apply parse_inputs_inr in E. tauto.
  - reflexivity.
  - intros Hv rel f urls x t content e x1 existing x2 a x3 Hread Hup Hconf Hfind Hdel Hup2.
    rewrite Hv. eexists. split.
    + exact (upload_one_conflict_replaced svc rel f urls x t content Hread e x1 Hup Hconf
               existing Hfind x2 a x3 Hdel Hup2).
    + reflexivity.
Qed.

Lemma parse_inputs_state i (s : st St) r s' :
  parse_inputs JSON_parse i s = (r, s') -> svc_state s' = svc_state s.
Proof.
  unfold parse_inputs, fail_return, when, bind, emit, ret. cbv zeta.
  destruct (JSON_parse (assetPathsInput i)); [intro E; injection E as _ <-; reflexivity |].
  destruct (as_array _) as [[|] |]; try (intro E; injection E as _ <-; reflexivity).
  repeat (cbv beta iota zeta; match goal with |- context [if ?b then _ else _] => destruct b end).
  all: cbv beta iota; intro E; injection E as _ <-; reflexivity.
Qed.

(** The indexed lookup finds a release whose name is not the requested one. *)
Lemma resolve_mismatch fuel p x t rel :
  truthy (targetTag p) = true -> truthy (trimmedReleaseName p) = true ->
  getReleaseByTag svc (targetTag p) x = inr rel ->
  opt_eq_str (rel_name rel) (trimmedReleaseName p) = false ->
  resolve_release svc owner repo fuel p (mk_st x t) =
  (inl (Fail (msg_mismatch (rel_name rel) (trimmedReleaseName p))),
   mk_st x (t ++ [Info ("Attempting to fetch release by tag: " ++ targetTag p);
                  Info ("Repository: " ++ owner ++ "/" ++ repo);
                  Call (CallGetReleaseByTag (targetTag p));
                  Info ("Found release by tag: " ++ js_str_opt (rel_name rel) ++
                        " (" ++ tag_name rel ++ ")");
                  SetFailed (msg_mismatch (rel_name rel) (trimmedReleaseName p))])).
Proof.
  intros Ht Hn Hg Hm. unfold resolve_release. cbv zeta. rewrite Ht.
  unfold query, perform, bind, emit. cbn [svc_state trace]. rewrite Hg.
  rewrite Hn, Hm. cbn [andb negb]. unfold fail_return, bind, emit. cbn [svc_state trace].
  rewrite <- !app_assoc. reflexivity.
Qed.

(** C4: when the indexed lookup by tag finds a release and a name was
    supplied that differs from the release's name, the run fails with the
    [ReleaseNameMismatch] message, whose text differs from every
    [ReleaseNotFound] message, and no page of the listing is requested,
    whatever the listing holds. *)
Theorem name_mismatch_fails fuel i x0 p s1 rel :
  parse_inputs JSON_parse i (mk_st x0 []) = (inr p, s1) ->
  truthy (targetTag p) = true -> truthy (trimmedReleaseName p) = true ->
  getReleaseByTag svc (targetTag p) x0 = inr rel ->
  opt_eq_str (rel_name rel) (trimmedReleaseName p) = false ->
  fst (exec svc JSON_parse owner repo fuel i x0) =
    inl (Fail (msg_mismatch (rel_name rel) (trimmedReleaseName p))) /\
  listed_pages (trace (snd (exec svc JSON_parse owner repo fuel i x0))) = [] /\
  (forall tag name, msg_mismatch (rel_name rel) (trimmedReleaseName p) <> msg_not_found tag name).
Proof.
  intros E Ht Hn Hg Hm.
  pose proof (parse_inputs_state i _ _ _ E) as Hx.
  pose proof (parse_inputs_no_call i x0) as Q. rewrite E in Q. simpl in Q.
  destruct s1 as [x1 t1]. simpl in Hx, Q. subst x1.
  unfold exec, run. rewrite (bind_inr _ _ _ _ _ E).
  rewrite (bind_inl _ _ _ _ _ (resolve_mismatch fuel p x0 t1 rel Ht Hn Hg Hm)).
  split; [reflexivity | split].
  - simpl. rewrite listed_pages_app, (listed_pages_quiet _ Q). reflexivity.
  - intros tag name. unfold msg_mismatch, msg_not_found.
    destruct (truthy tag && truthy name); [| destruct (truthy tag)]; discriminate.
Qed.

Section Collect.

Variables (x : St) (G : string -> list string) (F : string -> bool).

Lemma filter_files_run ms files t :
  (forall m, In m ms -> statIsFile svc m x = inr (F m)) ->
  exists t', filter_files svc ms files (mk_st x t) = (inr (files ++ filter F ms), mk_st x t').
Proof.
  induction ms as [| m ms IH] in files, t |- *; intro HF.
  - exists t. simpl. rewrite app_nil_r. reflexivity.
  - cbn [filter_files]. unfold query, perform, bind, emit. cbn [svc_state trace].
    rewrite (HF m (or_introl eq_refl)). cbn [or_throw ret].
    assert (HF' : forall m', In m' ms -> statIsFile svc m' x = inr (F m'))
      by (intros m' Hm'; apply HF; right; exact Hm').
    destruct (F m) eqn:Hm; simpl filter.
    + destruct (IH (files ++ [m]) (t ++ [Call (CallStat m)]) HF') as [t' E].
      exists t'. rewrite E, <- app_assoc, Hm. reflexivity.
    + destruct (IH files (t ++ [Call (CallStat m)]) HF') as [t' E].
      exists t'. rewrite E, Hm. reflexivity.
Qed.

Lemma collect_patterns_run ps acc t :
  (forall p, In p ps -> globFiles svc p x = inr (G p)) ->
  (forall p m, In p ps -> In m (G p) -> statIsFile svc m x = inr (F m)) ->
  exists t', collect_patterns svc (map JStr ps) acc (mk_st x t) =
             (inr (acc ++ concat (map (fun p => filter F (G p)) ps)), mk_st x t').
Proof.
  induction ps as [| p ps IH] in acc, t |- *; intros HG HF.
  - exists t. simpl. rewrite app_nil_r. reflexivity.
  - assert (HG' : forall p', In p' ps -> globFiles svc p' x = inr (G p'))
      by (intros p' Hp'; apply HG; right; exact Hp').
    assert (HF' : forall p' m, In p' ps -> In m (G p') -> statIsFile svc m x = inr (F m))
      by (intros p' m Hp'; apply HF; right; exact Hp').
    cbn [map collect_patterns glob_pattern]. unfold query, perform.
    unfold bind at 3. unfold bind at 2. unfold bind at 1. unfold emit at 1.
    cbn [svc_state trace]. rewrite (HG p (or_introl eq_refl)). cbn [or_throw ret].
    destruct (filter_files_run (G p) [] (t ++ [Call (CallGlob p)])
                (fun m => HF p m (or_introl eq_refl))) as [t1 E1].
    rewrite (bind_inr _ _ _ _ _ E1). cbv beta. rewrite !app_nil_l.
    destruct (Nat.eqb (length (filter F (G p))) 0) eqn:Hl.
    + apply Nat.eqb_eq, length_zero_iff_nil in Hl.
      unfold bind, emit. cbv beta iota. cbn [svc_state trace].
      destruct (IH acc (t1 ++ [Warning ("No files matched pattern: " ++ pattern_text (JStr p))])
                  HG' HF') as [t' E].
      exists t'. rewrite E. cbn [concat map]. rewrite Hl. reflexivity.
    + unfold bind, emit. cbv beta iota. cbn [svc_state trace].
      destruct (IH (acc ++ filter F (G p)) (t1 ++ [Info ("Pattern '" ++ pattern_text (JStr p) ++
                 "' matched " ++ nat_to_string (length (filter F (G p))) ++ " file(s)")])
                  HG' HF') as [t' E].
      exists t'. rewrite E, <- app_assoc. reflexivity.
Qed.

End Collect.

(** C5: for patterns expanded by the file system as [G] and a regular-file
    test [F] on the matched paths, the collector keeps the regular files of
    the matches, concatenated in pattern order; the deduplicated plan is that
    sequence with only the first occurrence of each path, has no duplicate,
    and contains no path that [fs.statSync] reports as not a regular file
    (a directory). *)
Theorem collector_no_dup_no_dir ps x t (G : string -> list string) (F : string -> bool) :
  (forall p, In p ps -> globFiles svc p x = inr (G p)) ->
  (forall p m, In p ps -> In m (G p) -> statIsFile svc m x = inr (F m)) ->
  fst (collect_patterns svc (map JStr ps) [] (mk_st x t)) =
    inr (concat (map (fun p => filter F (G p)) ps)) /\
  dedup (concat (map (fun p => filter F (G p)) ps)) = collector_spec G F ps /\
  NoDup (dedup (concat (map (fun p => filter F (G p)) ps))) /\
  (forall m, statIsFile svc m x = inr false ->
             ~ In m (dedup (concat (map (fun p => filter F (G p)) ps)))).
Proof.
  intros HG HF. split; [| split; [| split]].
  - destruct (collect_patterns_run x G F ps [] t HG HF) as [t' E]. rewrite E. reflexivity.
  - apply dedup_first_occ.
  - rewrite dedup_first_occ. apply first_occ_NoDup.
  - intros m Hm. rewrite dedup_first_occ, first_occ_In, in_concat.
    intros (l & Hl & Hin). apply in_map_iff in Hl. destruct Hl as (p & <- & Hp).
    apply filter_In in Hin. destruct Hin as [HmG HFm].
    rewrite (HF p m Hp HmG), HFm in Hm. discriminate.
Qed.

Lemma replace_existing_inr rel name content e urls (s : st St) l s' :
  replace_existing svc rel name content e urls s = (inr (inr l), s') ->
  exists u, l = urls ++ [u].
Proof.
  unfold replace_existing, upload_call, release_id_of, release_assets_of.
  unfold query, perform, bind, emit, ret.
  repeat (cbv beta iota zeta;
          match goal with |- context [match ?x with _ => _ end] => destruct x end).
  all: cbv beta iota; intro E; try discriminate; injection E as <- _; eauto.
Qed.

(** A successful iteration of the upload loop appends exactly one URL. *)
Lemma upload_one_inr_append rel deny f urls (s : st St) urls' s' :
  upload_one svc rel deny f urls s = (inr urls', s') -> exists u, urls' = urls ++ [u].
Proof.
  unfold upload_one, upload_call, release_id_of.
  cbv zeta. unfold query, perform, bind, emit, or_throw, ret, throw.
  repeat (cbv beta iota zeta;
          match goal with |- context [match ?x with _ => _ end] => destruct x eqn:? end).
  all: cbv beta iota; intro E; try discriminate; injection E as <- _;
       eauto using replace_existing_inr.
Qed.

Lemma upload_all_urls rel deny files urls (s : st St) urls' s' :
  upload_all svc rel deny files urls s = (inr urls', s') ->
  exists l, urls' = urls ++ l /\ length l = length files /\
    forall k f, nth_error files k = Some f ->
      exists s1 s2, upload_one svc rel deny f (urls ++ firstn k l) s1 =
                    (inr (urls ++ firstn (S k) l), s2).
Proof.
  induction files as [| f rest IH] in urls, s |- *; simpl.
  - intro E. injection E as <- _. exists []. rewrite app_nil_r.
    split; [reflexivity | split; [reflexivity |]]. intros [|] ? H; discriminate.
  - unfold bind at 1. destruct (upload_one svc rel deny f urls s) as [[x | urls1] s1] eqn:E1;
      [discriminate |].
    intro E. destruct (upload_one_inr_append _ _ _ _ _ _ _ E1) as [u ->].
    destruct (IH _ _ E) as (l & -> & Hl & Hk).
    exists (u :: l). rewrite <- app_assoc. split; [reflexivity | split; [simpl; congruence |]].
    intros [| k] g Hg; simpl in Hg.
    + injection Hg as <-. exists s, s1. simpl. rewrite app_nil_r. exact E1.
    + destruct (Hk k g Hg) as (s2 & s3 & E2). exists s2, s3.
      rewrite <- app_assoc in E2. simpl. rewrite <- !app_assoc in E2. exact E2.
Qed.

(** C6: a run that completes has set [download_urls] to the JSON array of
    its URLs, one per file of the deduplicated plan and in the plan's order:
    the [k]-th URL is the one appended by the upload iteration of the
    [k]-th file. For the archives [dist/a.tar.gz] and [dist/b.tar.gz]
    matched by [dist/*.tar.gz] and a release without assets, the output
    holds the URL of [a.tar.gz], then the URL of [b.tar.gz]. *)
Theorem download_urls_in_plan_order fuel i x0 s :
  exec svc JSON_parse owner repo fuel i x0 = (inr tt, s) ->
  (exists p rel s1 s2 s3 files urls,
     parse_inputs JSON_parse i (mk_st x0 []) = (inr p, s1) /\
     resolve_release svc owner repo fuel p s1 = (inr (Some rel), s2) /\
     collect_patterns svc (assetPaths p) [] s2 = (inr files, s3) /\
     outputs (trace s) = [("download_urls"%string, JArr (map JStr urls))] /\
     length urls = length (dedup files) /\
     forall k f, nth_error (dedup files) k = Some f ->
       exists s4 s5, upload_one svc (Some rel) (denyBool p) f (firstn k urls) s4 =
                     (inr (firstn (S k) urls), s5)) /\
  (let (r, s') := exec GitHub.svc Json.parse "owner" "repo" 10
                    Examples.dist_inputs Examples.dist_state in
   r = inr tt /\
   outputs (trace s') =
     [("download_urls"%string,
       JArr [JStr (GitHub.download_url "v1.0.0" "a.tar.gz");
             JStr (GitHub.download_url "v1.0.0" "b.tar.gz")])]).
Proof.
  intro E. split; [| vm_compute; split; reflexivity].
  pose proof (exec_shape svc JSON_parse owner repo fuel i x0) as Sh. rewrite E in Sh.
  destruct Sh as (p & rel & files & unique & urls & s1 & s2 & s3 & s4 & s5 & ext &
                  E1 & E2 & E3 & E4 & E5 & Hu & _ & Q5 & Qe & ->).
  exists p, rel, s1, s2, s3, files, urls.
  split; [exact E1 | split; [exact E2 | split; [exact E3 | split]]].
  - cbn [trace]. rewrite outputs_app, (outputs_quiet _ Q5). simpl.
    rewrite (outputs_quiet _ Qe). reflexivity.
  - subst unique. destruct (upload_all_urls _ _ _ _ _ _ _ E5) as (l & Hl & Hlen & Hk).
    simpl in Hl. subst l. split; [exact Hlen |]. exact Hk.
Qed.

Lemma appending_ext {A} (m : M St A) s r s' :
  appending m -> m s = (r, s') -> exists t, trace s' = trace s ++ t.
Proof.
  destruct s as [x t0]. intros Ha E. rewrite Ha in E. injection E as _ <-. simpl. eauto.
Qed.

End Claims.

(** ** Which ways of ending each stage has *)

(** [m] ends early only by throwing. *)
Definition throws_only {S A} (m : M S A) : Prop :=
  forall s x s', m s = (inl x, s') -> exists e, x = Thrown e.

Section ThrowsOnly.

Context {S : Type}.

Lemma throws_only_ret {A} (a : A) : throws_only (S := S) (ret a).
Proof. intros s x s' E. discriminate. Qed.

Lemma throws_only_throw {A} (e : js_error) : throws_only (S := S) (A := A) (throw e).
Proof. intros s x s' E. injection E as <- _. eauto. Qed.

Lemma throws_only_emit ev : throws_only (S := S) (emit ev).
Proof. intros s x s' E. discriminate. Qed.

Lemma throws_only_bind {A B} (m : M S A) (k : A -> M S B) :
  throws_only m -> (forall a, throws_only (k a)) -> throws_only (bind m k).
Proof.
  intros Hm Hk s x s' E. unfold bind in E.
  destruct (m s) as [[y | a] s0] eqn:E0.
  - injection E as <- _. exact (Hm _ _ _ E0).
  - exact (Hk _ _ _ _ E).
Qed.

Lemma throws_only_perform {A} c (op : S -> (js_error + A) * S) : throws_only (perform c op).
Proof.
  unfold perform. apply throws_only_bind; [apply throws_only_emit |].
  intros _ s x s' E. destruct (op (svc_state s)). discriminate.
Qed.

Lemma throws_only_query {A} c (op : S -> js_error + A) : throws_only (query c op).
Proof. apply throws_only_perform. Qed.

Lemma throws_only_or_throw {A} (r : js_error + A) : throws_only (S := S) (or_throw r).
Proof. destruct r; [apply throws_only_throw | apply throws_only_ret]. Qed.

Lemma throws_only_when b (m : M S unit) : throws_only m -> throws_only (when b m).
Proof. destruct b; [auto | intros _; apply throws_only_ret]. Qed.

End ThrowsOnly.

Create HintDb throws.
#[export] Hint Resolve throws_only_ret throws_only_throw throws_only_emit throws_only_perform
  throws_only_query throws_only_or_throw : throws.

Ltac throws_step :=
  match goal with
  | |- throws_only (bind _ _) => apply throws_only_bind; [| intro]
  | |- throws_only (when _ _) => apply throws_only_when
  | |- throws_only (if ?b then _ else _) => destruct b
  | |- throws_only (match ?x with _ => _ end) => destruct x
  | |- throws_only _ => solve [eauto with throws]
  end.

Ltac throws_auto := repeat throws_step.

Section ScriptThrows.

Context {St : Type} (svc : service St).

Lemma glob_pattern_throws pat : throws_only (glob_pattern svc pat).
Proof. unfold glob_pattern. throws_auto. Qed.

Lemma filter_files_throws ms files : throws_only (filter_files svc ms files).
Proof.
  induction ms as [| m ms IH] in files |- *; simpl; throws_auto.
Qed.
#[local] Hint Resolve glob_pattern_throws filter_files_throws : throws.

Lemma collect_patterns_throws ps acc : throws_only (collect_patterns svc ps acc).
Proof.
  induction ps as [| pat ps IH] in acc |- *; simpl; throws_auto.
Qed.

Lemma upload_call_throws rel name content : throws_only (upload_call svc rel name content).
Proof. unfold upload_call. throws_auto. Qed.
#[local] Hint Resolve upload_call_throws : throws.

Lemma replace_existing_throws rel name content e urls :
  throws_only (replace_existing svc rel name content e urls).
Proof. unfold replace_existing. throws_auto. Qed.
#[local] Hint Resolve replace_existing_throws : throws.

Lemma upload_one_throws rel deny f urls : throws_only (upload_one svc rel deny f urls).
Proof. unfold upload_one. cbv zeta. throws_auto. Qed.
#[local] Hint Resolve upload_one_throws : throws.

Lemma upload_all_throws rel deny files urls : throws_only (upload_all svc rel deny files urls).
Proof.
  induction files as [| f rest IH] in urls |- *; simpl; throws_auto.
Qed.

Lemma report_throws rel urls : throws_only (report (St := St) rel urls).
Proof. unfold report. throws_auto. Qed.

End ScriptThrows.

Section Claims2.

Context {St : Type} (svc : service St) (JSON_parse : string -> string + json).
Context (owner repo : string).

Lemma plan_uploads_empty files (s : st St) :
  dedup files = [] ->
  plan_uploads files s = (inl (Fail msg_no_files),
                          mk_st (svc_state s) (trace s ++ [SetFailed msg_no_files])).
Proof. intro H. unfold plan_uploads. cbv zeta. rewrite H. reflexivity. Qed.

Lemma plan_uploads_nonempty files (s : st St) x s' :
  dedup files <> [] -> plan_uploads files s = (inl x, s') -> False.
Proof.
  intros H E. unfold plan_uploads in E. cbv zeta in E. unfold bind at 1 in E.
  destruct (Nat.eqb (length (dedup files)) 0) eqn:Hl.
  - apply Nat.eqb_eq, length_zero_iff_nil in Hl. contradiction.
  - unfold bind, when, emit, ret in E. destruct (negb _); discriminate.
Qed.

(** After a pattern that adds no file, a warning names it. *)
Lemma collect_patterns_warns ps acc (s : st St) r s' :
  collect_patterns svc ps acc s = (inr r, s') ->
  (exists l, r = acc ++ l) /\
  (r = acc -> forall pat, In pat ps -> exists ptxt, pat = JStr ptxt /\
     In (Call (CallGlob ptxt)) (trace s') /\
     In (Warning ("No files matched pattern: " ++ ptxt)) (trace s')).
Proof.
  induction ps as [| pat ps IH] in acc, s |- *; cbn [collect_patterns].
  - intro E. injection E as <- <-. split; [exists []; rewrite app_nil_r; reflexivity |].
    intros _ pat [].
  - unfold bind at 1. destruct (glob_pattern svc pat s) as [[x | ms] sa] eqn:Eg;
      [discriminate |].
    unfold bind at 1. destruct (filter_files svc ms [] sa) as [[x | files] sb] eqn:Ef;
      [discriminate |].
    destruct (appending_ext _ _ _ _ (filter_files_appending svc ms []) Ef) as [tf Hf].
    assert (Hg : exists ptxt, pat = JStr ptxt /\ exists tg, trace sa = trace s ++ Call (CallGlob ptxt) :: tg).
    { destruct pat; try discriminate Eg. exists s0. split; [reflexivity |].
      revert Eg. unfold glob_pattern, query, perform, bind, emit. cbn [svc_state trace].
      destruct (globFiles svc s0 (svc_state s)); cbn; intro E; injection E as _ <-;
        eexists; reflexivity. }
    destruct Hg as (ptxt & -> & tg & Htg).
    destruct (Nat.eqb (length files) 0) eqn:Hl.
    + unfold bind, emit. cbv beta iota. intro E.
      destruct (IH _ _ E) as [Hr Hin]. split; [exact Hr |].
      intros Hra pat' [<- | Hp]; [| exact (Hin Hra pat' Hp)].
      exists ptxt. split; [reflexivity |].
      destruct (appending_ext _ _ _ _ (collect_patterns_appending svc ps acc) E) as [tr Htr].
      rewrite Htr. cbn [trace]. rewrite Hf, Htg. cbn [pattern_text].
      split; apply in_or_app; left; apply in_or_app; [left | right];
        [apply in_or_app; left; apply in_or_app; right; left; reflexivity | left; reflexivity].
    + unfold bind, emit. cbv beta iota. intro E.
      destruct (IH _ _ E) as [[l Hr] _]. split; [exists (files ++ l); rewrite Hr, app_assoc; reflexivity |].
      intro Hra. rewrite Hra, <- app_assoc in Hr.
      apply (f_equal (@length string)) in Hr. rewrite length_app, length_app in Hr.
      apply Nat.eqb_neq in Hl. lia.
Qed.

Lemma fst_not_fail {A} (m : M St A) s msg : throws_only m -> fst (m s) <> inl (Fail msg).
Proof.
  intros Hm H. destruct (m s) as [[x | a] s'] eqn:E; simpl in H; [| discriminate].
  injection H as ->. destruct (Hm _ _ _ E) as [e He]. discriminate.
Qed.

Section Listing.

Variables (all : list release) (x : St) (tag name : string).
Hypothesis Hpages :
  forall page, (1 <= page)%Z -> listReleases svc per_page page x = inr (page_of all page).

(** The listing loop from page [n + 1] scans the releases after the first
    [n] pages, requesting the pages [n + 1 .. n + K] and stopping at the
    first page that has a match or is not full. *)
Lemma list_loop_scan fuel n t :
  length (skipn (100 * n) all) / 100 < fuel ->
  exists K tr,
    list_loop svc tag name fuel (Z.of_nat (S n)) (mk_st x t) =
      (inr (find (matches_criterion tag name) (skipn (100 * n) all)), mk_st x (t ++ tr)) /\
    1 <= K /\ listed_pages tr = map Z.of_nat (seq (S n) K) /\
    (forall j, S n <= j < n + K ->
       length (page_of all (Z.of_nat j)) = 100 /\
       find (matches_criterion tag name) (page_of all (Z.of_nat j)) = None) /\
    (find (matches_criterion tag name) (page_of all (Z.of_nat (n + K))) <> None \/
     length (page_of all (Z.of_nat (n + K))) < 100).
Proof.
  induction fuel as [| f IH] in n, t |- *; intro Hf; [lia |].
  set (rest := skipn (100 * n) all) in *.
  assert (Hsplit : rest = firstn 100 rest ++ skipn 100 rest) by (symmetry; apply firstn_skipn).
  cbn [list_loop]. unfold query, perform, bind, emit. cbn [svc_state trace].
  rewrite (Hpages (Z.of_nat (S n))) by lia. rewrite page_of_nat. fold rest.
  unfold or_throw, ret. cbv beta iota.
  destruct (find (matches_criterion tag name) (firstn 100 rest)) as [rel |] eqn:Hfind.
  - exists 1. eexists. split.
    { rewrite Hsplit. rewrite (find_app_some _ _ _ _ Hfind).
      cbn [svc_state trace]. rewrite <- app_assoc. reflexivity. }
    split; [lia | split; [reflexivity | split]].
    + intros j Hj. lia.
    + left. rewrite Nat.add_1_r, page_of_nat. fold rest. rewrite Hfind. discriminate.
  - destruct (Z.of_nat (length (firstn 100 rest)) <? per_page)%Z eqn:Hlt.
    + apply Z.ltb_lt in Hlt. unfold per_page in Hlt.
      assert (Hshort : length rest < 100).
      { rewrite length_firstn in Hlt. lia. }
      exists 1. eexists. split.
      { rewrite Hsplit. rewrite (find_app_none _ _ _ Hfind).
        rewrite (skipn_all2 rest) by lia. reflexivity. }
      split; [lia | split; [reflexivity | split]].
      * intros j Hj. lia.
      * right. rewrite Nat.add_1_r, page_of_nat. fold rest. lia.
    + apply Z.ltb_ge in Hlt. unfold per_page in Hlt.
      assert (Hfull : length (firstn 100 rest) = 100).
      { rewrite length_firstn in *. lia. }
      assert (Hrest : skipn (100 * S n) all = skipn 100 rest).
      { unfold rest. rewrite skipn_skipn. f_equal. lia. }
      assert (Hf' : length (skipn (100 * S n) all) / 100 < f).
      { rewrite Hrest, length_skipn.
        rewrite length_firstn in Hfull.
        assert (Hge : 100 <= length rest) by lia.
        replace (length rest) with ((length rest - 100) + 1 * 100) in Hf by lia.
        rewrite Nat.div_add in Hf by lia. lia. }
      replace (Z.of_nat (S n) + 1)%Z with (Z.of_nat (S (S n))) by lia.
      destruct (IH (S n) (t ++ [Call (CallListReleases per_page (Z.of_nat (S n)))]) Hf')
        as (K & tr & E & HK & Hl & Hmid & Hlast).
      exists (S K), (Call (CallListReleases per_page (Z.of_nat (S n))) :: tr).
      split; [| split; [lia | split; [| split]]].
      * rewrite E, <- app_assoc, Hrest. rewrite Hsplit at 2.
        rewrite (find_app_none _ _ _ Hfind). reflexivity.
      * simpl. rewrite Hl. reflexivity.
      * intros j Hj. destruct (Nat.eq_dec j (S n)) as [-> | Hne].
        -- rewrite page_of_nat. fold rest. split; assumption.
        -- apply Hmid. lia.
      * rewrite <- Nat.add_succ_comm. exact Hlast.
Qed.

End Listing.

(** The indexed lookup reports not-found, or there is no tag but a name:
    the resolver goes to the listing, from page 1. *)
Lemma resolve_fallback fuel p x t :
  (truthy (targetTag p) = true /\
   exists e, getReleaseByTag svc (targetTag p) x = inl e /\ status_is e 404 = true) \/
  (truthy (targetTag p) = false /\ truthy (trimmedReleaseName p) = true) ->
  exists pre, listed_pages pre = [] /\
    resolve_release svc owner repo fuel p (mk_st x t) =
    bind (list_loop svc (targetTag p) (trimmedReleaseName p) fuel 1)
      (fun found => match found with
                    | Some rel => ret (Some rel)
                    | None => fail_return (msg_not_found (targetTag p) (trimmedReleaseName p))
                    end) (mk_st x (t ++ pre)).
Proof.
  intros [[Ht (e & Hg & H4)] | [Ht Hn]].
  - exists [Info ("Attempting to fetch release by tag: " ++ targetTag p);
            Info ("Repository: " ++ owner ++ "/" ++ repo);
            Call (CallGetReleaseByTag (targetTag p));
            Info "Release not found by tag API (might be draft), searching all releases...";
            Info "Searching all releases (including drafts)..."].
    split; [reflexivity |].
    unfold resolve_release. cbv zeta. rewrite Ht. cbn [orb].
    unfold query, perform, emit, ret. unfold bind at 1 2 3 4 5 6 7.
    cbn [svc_state trace]. rewrite Hg. cbv beta iota. rewrite H4.
    unfold bind at 1 2. cbv beta iota. cbn [svc_state trace].
    rewrite <- !app_assoc. reflexivity.
  - exists [Info "Searching all releases (including drafts)..."].
    split; [reflexivity |].
    unfold resolve_release. cbv zeta. rewrite Ht, Hn. cbn [orb].
    unfold ret, emit. unfold bind at 1 2 3. cbv beta iota. cbn [svc_state trace].
    reflexivity.
Qed.

(** C1: when the indexed lookup by tag reports not-found, or no tag but a
    name is given, and the listing serves [all] (drafts included) 100 per
    page, the resolver requests the pages [1 .. K] in order, every page
    before [K] being full and without a match and page [K] having a match or
    fewer than 100 releases; it returns the first release of [all], in list
    order, that matches the active criterion (tag and name, tag only or name
    only, exactly), and when none does the run fails with the
    [ReleaseNotFound] message built from the tag and the name, whose three
    forms say which of them were required. *)
Theorem listing_finds_first_match fuel i x0 p s1 all :
  parse_inputs JSON_parse i (mk_st x0 []) = (inr p, s1) ->
  (truthy (targetTag p) = true /\
   exists e, getReleaseByTag svc (targetTag p) x0 = inl e /\ status_is e 404 = true) \/
  (truthy (targetTag p) = false /\ truthy (trimmedReleaseName p) = true) ->
  (forall page, (1 <= page)%Z -> listReleases svc per_page page x0 = inr (page_of all page)) ->
  length all / 100 < fuel ->
  (forall r, matches_criterion (targetTag p) (trimmedReleaseName p) r = true <->
             criterion_spec (targetTag p) (trimmedReleaseName p) r) /\
  exists K s2,
    resolve_release svc owner repo fuel p s1 =
      (match find (matches_criterion (targetTag p) (trimmedReleaseName p)) all with
       | Some r => inr (Some r)
       | None => inl (Fail (msg_not_found (targetTag p) (trimmedReleaseName p)))
       end, s2) /\
    1 <= K /\ listed_pages (trace s2) = map Z.of_nat (seq 1 K) /\
    (forall j, 1 <= j < K ->
       length (page_of all (Z.of_nat j)) = 100 /\
       find (matches_criterion (targetTag p) (trimmedReleaseName p))
            (page_of all (Z.of_nat j)) = None) /\
    (find (matches_criterion (targetTag p) (trimmedReleaseName p))
          (page_of all (Z.of_nat K)) <> None \/
     length (page_of all (Z.of_nat K)) < 100) /\
    (find (matches_criterion (targetTag p) (trimmedReleaseName p)) all = None ->
     fst (exec svc JSON_parse owner repo fuel i x0) =
       inl (Fail (msg_not_found (targetTag p) (trimmedReleaseName p)))).
Proof.
  intros E1 Hcase Hpages Hfuel. split.
  { intro r. unfold matches_criterion, criterion_spec.
    destruct Hcase as [[Ht _] | [Ht Hn]]; rewrite Ht; [| rewrite Hn]; cbn [andb].
    - destruct (truthy (trimmedReleaseName p)).
      + rewrite andb_true_iff, String.eqb_eq, opt_eq_str_spec. intuition.
      + rewrite String.eqb_eq. intuition discriminate.
    - rewrite opt_eq_str_spec. intuition discriminate. }
  pose proof (parse_inputs_state JSON_parse i _ _ _ E1) as Hx.
  pose proof (parse_inputs_no_call JSON_parse i x0) as Q. rewrite E1 in Q. simpl in Q.
  destruct s1 as [x1 t1]. simpl in Hx, Q. subst x1.
  destruct (resolve_fallback fuel p x0 t1 Hcase) as (pre & Hpre & Hres).
  assert (Hf0 : length (skipn (100 * 0) all) / 100 < fuel) by (rewrite Nat.mul_0_r; exact Hfuel).
  destruct (list_loop_scan all x0 (targetTag p) (trimmedReleaseName p) Hpages fuel 0
              (t1 ++ pre) Hf0) as (K & tr & E & HK & Hl & Hmid & Hlast).
  change (Z.of_nat 1) with 1%Z in E. rewrite Nat.mul_0_r in E. cbn [skipn] in E.
  rewrite Hres. unfold bind at 1. rewrite E.
  destruct (find (matches_criterion (targetTag p) (trimmedReleaseName p)) all) as [r |] eqn:Hf.
  - exists K, (mk_st x0 ((t1 ++ pre) ++ tr)).
    split; [reflexivity | split; [exact HK | split; [| split; [| split]]]].
    + cbn [trace]. rewrite !listed_pages_app, (listed_pages_quiet _ Q), Hpre, Hl. reflexivity.
    + intros j Hj. apply Hmid. lia.
    + exact Hlast.
    + discriminate.
  - exists K, (mk_st x0 (((t1 ++ pre) ++ tr) ++
                         [SetFailed (msg_not_found (targetTag p) (trimmedReleaseName p))])).
    split; [reflexivity | split; [exact HK | split; [| split; [| split]]]].
    + cbn [trace]. rewrite !listed_pages_app, (listed_pages_quiet _ Q), Hpre, Hl.
      simpl. rewrite app_nil_r. reflexivity.
    + intros j Hj. apply Hmid. lia.
    + exact Hlast.
    + intros _. unfold exec, run. rewrite (bind_inr _ _ _ _ _ E1).
      assert (Hr : resolve_release svc owner repo fuel p (mk_st x0 t1) =
                   (inl (Fail (msg_not_found (targetTag p) (trimmedReleaseName p))),
                    mk_st x0 (((t1 ++ pre) ++ tr) ++
                      [SetFailed (msg_not_found (targetTag p) (trimmedReleaseName p))])))
        by (rewrite Hres; unfold bind at 1; rewrite E; reflexivity).
      rewrite (bind_inl _ _ _ _ _ Hr). reflexivity.
Qed.

End Claims2.

(** ** Further properties of the script *)

Lemma emits_only_weaken {S A} (P Q : event -> Prop) (m : M S A) :
  (forall ev, P ev -> Q ev) -> emits_only P m -> emits_only Q m.
Proof. intros H Hm x. eapply Forall_impl; [exact H | apply Hm]. Qed.

Lemma emits_only_run {S A} P (m : M S A) s r s' :
  appending m -> emits_only P m -> m s = (r, s') ->
  exists tr, trace s' = trace s ++ tr /\ Forall P tr.
Proof.
  destruct s as [x t]. intros Ha He E. rewrite Ha in E. injection E as _ <-.
  eexists. split; [reflexivity | apply He].
Qed.

Lemma reads_app l1 l2 : reads (l1 ++ l2) = reads l1 ++ reads l2.
Proof.
  induction l1 as [| ev l1 IH]; [reflexivity |].
  destruct ev as [| | | | | | []]; simpl; rewrite ?IH; reflexivity.
Qed.

Lemma reads_quiet l : Forall not_read l -> reads l = [].
Proof.
  induction 1 as [| ev l Hev _ IH]; [reflexivity |].
  destruct ev as [| | | | | | []]; simpl in *; tauto.
Qed.

Lemma calls_Forall (P : event -> Prop) tr c : Forall P tr -> In c (calls tr) -> P (Call c).
Proof.
  induction 1 as [| ev l Hev _ IH]; simpl; [intros [] |].
  destruct ev; simpl; auto. intros [<- | H]; auto.
Qed.

Lemma Forall_In_event (P : event -> Prop) tr ev : Forall P tr -> In ev tr -> P ev.
Proof. rewrite Forall_forall. auto. Qed.

Lemma substring_full t : substring 0 (String.length t) t = t.
Proof. induction t as [| c t IH]; simpl; congruence. Qed.

(** [ref.replace('refs/tags/', '')] on a ref [refs/tags/<t>] gives [t]. *)
Lemma replace_first_tag_ref t :
  replace_first "refs/tags/" "" ("refs/tags/" ++ t) = t.
Proof.
  unfold replace_first. simpl.
  replace (prefix "" t) with true by (destruct t; reflexivity). simpl.
  replace (String.length t - 0) with (String.length t) by lia.
  apply substring_full.
Qed.

(** [emits_step], also closing the conditions on single events that need
    computation. *)
Ltac emits_step2 :=
  first [ emits_step
        | (apply emits_only_emit || apply emits_only_fail_return ||
           apply emits_only_query || apply emits_only_perform);
          simpl; solve [exact I | reflexivity | auto | split; auto | split; eauto 8] ].

Ltac emits_auto2 := repeat emits_step2.

Lemma calls_app l1 l2 : calls (l1 ++ l2) = calls l1 ++ calls l2.
Proof.
  induction l1 as [| ev l1 IH]; [reflexivity |].
  destruct ev; simpl; rewrite ?IH; reflexivity.
Qed.

Section KeepsState.

Context {S : Type}.

Lemma keeps_state_ret {A} (a : A) : keeps_state (S := S) (ret a).
Proof. intros s r s' E. injection E as _ <-. reflexivity. Qed.

Lemma keeps_state_emit ev : keeps_state (S := S) (emit ev).
Proof. intros s r s' E. injection E as _ <-. reflexivity. Qed.

Lemma keeps_state_throw {A} (e : js_error) : keeps_state (S := S) (A := A) (throw e).
Proof. intros s r s' E. injection E as _ <-. reflexivity. Qed.

Lemma keeps_state_fuel_out {A} : keeps_state (S := S) (A := A) (fun s => (inl OutOfFuel, s)).
Proof. intros s r s' E. injection E as _ <-. reflexivity. Qed.

Lemma keeps_state_bind {A B} (m : M S A) (k : A -> M S B) :
  keeps_state m -> (forall a, keeps_state (k a)) -> keeps_state (bind m k).
Proof.
  intros Hm Hk s r s' E. unfold bind in E.
  destruct (m s) as [[y | a] s0] eqn:E0.
  - injection E as _ <-. exact (Hm _ _ _ E0).
  - rewrite (Hk _ _ _ _ E). exact (Hm _ _ _ E0).
Qed.

Lemma keeps_state_fail_return {A} msg : keeps_state (S := S) (A := A) (fail_return msg).
Proof.
  unfold fail_return. apply keeps_state_bind; [apply keeps_state_emit |].
  intros _ s r s' E. injection E as _ <-. reflexivity.
Qed.

Lemma keeps_state_query {A} c (op : S -> js_error + A) : keeps_state (query c op).
Proof.
  unfold query, perform. apply keeps_state_bind; [apply keeps_state_emit |].
  intros _ s r s' E. cbv beta iota in E. injection E as _ <-. reflexivity.
Qed.

Lemma keeps_state_or_throw {A} (r : js_error + A) : keeps_state (S := S) (or_throw r).
Proof. destruct r; [apply keeps_state_throw | apply keeps_state_ret]. Qed.

Lemma keeps_state_when b (m : M S unit) : keeps_state m -> keeps_state (when b m).
Proof. destruct b; [auto | intros _; apply keeps_state_ret]. Qed.

End KeepsState.

Create HintDb keeps.
#[export] Hint Resolve keeps_state_ret keeps_state_emit keeps_state_throw keeps_state_fuel_out
  keeps_state_fail_return keeps_state_query keeps_state_or_throw : keeps.

Ltac keeps_step :=
  match goal with
  | |- keeps_state (bind _ _) => apply keeps_state_bind; [| intro]
  | |- keeps_state (when _ _) => apply keeps_state_when
  | |- keeps_state (if ?b then _ else _) => destruct b
  | |- keeps_state (match ?x with _ => _ end) => destruct x
  | |- keeps_state _ => solve [eauto with keeps]
  end.

Ltac keeps_auto := repeat keeps_step.

Lemma first_occ_length_le l : length (first_occ l) <= length l.
Proof.
  induction l as [| x r IH]; simpl; [lia |].
  pose proof (filter_length_le (fun y => negb (String.eqb y x)) (first_occ r)). lia.
Qed.

Lemma first_occ_id l : NoDup l -> first_occ l = l.
Proof.
  induction 1 as [| x r Hx _ IH]; [reflexivity |]. simpl. rewrite IH. f_equal.
  apply forallb_filter_id. apply forallb_forall. intros y Hy.
  destruct (String.eqb_spec y x); [subst; contradiction | reflexivity].
Qed.

Lemma first_occ_length_NoDup l : length (first_occ l) = length l -> NoDup l.
Proof.
  induction l as [| x r IH]; simpl; intro H; [constructor |].
  pose proof (filter_length_le (fun y => negb (String.eqb y x)) (first_occ r)) as H1.
  pose proof (first_occ_length_le r) as H2.
  assert (H3 : length (filter (fun y => negb (String.eqb y x)) (first_occ r)) = length (first_occ r))
    by lia.
  constructor; [| apply IH; lia].
  intro Hin. apply first_occ_In in Hin.
  pose proof (filter_length_forallb _ _ H3) as Hall. rewrite forallb_forall in Hall.
  specialize (Hall x Hin). rewrite String.eqb_refl in Hall. discriminate.
Qed.

(** [[...new Set(l)]] has the length of [l] exactly when [l] has no
    repeated path, and is then [l] itself. *)
Lemma dedup_length_NoDup l : length (dedup l) = length l <-> NoDup l.
Proof.
  rewrite dedup_first_occ. split; [apply first_occ_length_NoDup |].
  intro H. rewrite (first_occ_id _ H). reflexivity.
Qed.

Lemma bind_query {S A B} c (op : S -> js_error + A) (k : js_error + A -> M S B) x t :
  bind (query c op) k (mk_st x t) = k (op x) (mk_st x (t ++ [Call c])).
Proof. reflexivity. Qed.

Section SetFailedShape.

Context {S : Type}.

Lemma sf_shape_prefix {A} (r : exit + A) t tr :
  Forall not_setfailed t -> sf_shape r tr -> sf_shape r (t ++ tr).
Proof.
  intros Ht H. destruct r as [[msg | e |] | a]; simpl in *.
  - destruct H as (tr0 & -> & H0). exists (t ++ tr0).
    rewrite <- app_assoc. split; [reflexivity | apply Forall_app; auto].
  - destruct H as [H | (tr0 & name & -> & H0)]; [left; apply Forall_app; auto | right].
    exists (t ++ tr0), name. rewrite <- app_assoc. split; [reflexivity | apply Forall_app; auto].
  - apply Forall_app; auto.
  - apply Forall_app; auto.
Qed.

Lemma sf_ok_bind {A B} (m : M S A) (k : A -> M S B) :
  sf_ok m -> (forall a, appending (k a)) -> (forall a, sf_ok (k a)) -> sf_ok (bind m k).
Proof.
  intros Hm Ha Hk x r s E. unfold bind in E.
  destruct (m (mk_st x [])) as [[y | a] s0] eqn:E0.
  - injection E as <- <-. exact (Hm _ _ _ E0).
  - pose proof (Hm _ _ _ E0) as H0. simpl in H0.
    destruct s0 as [x0 t0]. rewrite Ha in E.
    destruct (k a (mk_st x0 [])) as [r1 s1] eqn:E1. simpl in E. injection E as <- <-.
    simpl. apply sf_shape_prefix; [exact H0 | exact (Hk _ _ _ _ E1)].
Qed.

Lemma sf_ok_ret {A} (a : A) : sf_ok (S := S) (ret a).
Proof. intros x r s E. injection E as <- <-. constructor. Qed.

Lemma sf_ok_emit ev : not_setfailed ev -> sf_ok (S := S) (emit ev).
Proof. intros H x r s E. injection E as <- <-. simpl. repeat constructor. exact H. Qed.

Lemma sf_ok_throw {A} (e : js_error) : sf_ok (S := S) (A := A) (throw e).
Proof. intros x r s E. injection E as <- <-. left. constructor. Qed.

Lemma sf_ok_fuel_out {A} : sf_ok (S := S) (A := A) (fun s => (inl OutOfFuel, s)).
Proof. intros x r s E. injection E as <- <-. constructor. Qed.

Lemma sf_ok_fail_return {A} msg : sf_ok (S := S) (A := A) (fail_return msg).
Proof. intros x r s E. injection E as <- <-. exists []. split; [reflexivity | constructor]. Qed.

Lemma sf_ok_perform {A} c (op : S -> (js_error + A) * S) : sf_ok (perform c op).
Proof.
  intros x r s E. unfold perform, bind, emit in E. simpl in E.
  destruct (op x). injection E as <- <-. simpl. repeat constructor.
Qed.

Lemma sf_ok_query {A} c (op : S -> js_error + A) : sf_ok (query c op).
Proof. apply sf_ok_perform. Qed.

Lemma sf_ok_or_throw {A} (r : js_error + A) : sf_ok (S := S) (or_throw r).
Proof. destruct r; [apply sf_ok_throw | apply sf_ok_ret]. Qed.

Lemma sf_ok_when b (m : M S unit) : sf_ok m -> sf_ok (when b m).
Proof. destruct b; [auto | intros _; apply sf_ok_ret]. Qed.

(** [core.setFailed(...)] for a denied overwrite, then [throw error]. *)
Lemma sf_ok_deny {A} n (e : js_error) :
  sf_ok (S := S) (A := A) (emit (SetFailed (msg_deny n)) ;;; throw e).
Proof. intros x r s E. injection E as <- <-. right. exists [], n. split; [reflexivity | constructor]. Qed.

End SetFailedShape.

Create HintDb sfok.
#[export] Hint Resolve sf_ok_ret sf_ok_throw sf_ok_fuel_out sf_ok_fail_return sf_ok_perform
  sf_ok_query sf_ok_or_throw : sfok.

Ltac sf_step :=
  match goal with
  | |- sf_ok (bind (emit (SetFailed (msg_deny _))) (fun _ => throw _)) => apply sf_ok_deny
  | |- sf_ok (bind _ _) => apply sf_ok_bind; [| intro; appending_auto | intro]
  | |- sf_ok (when _ _) => apply sf_ok_when
  | |- sf_ok (if ?b then _ else _) => destruct b
  | |- sf_ok (match ?x with _ => _ end) => destruct x
  | |- sf_ok (let (_, _) := ?p in _) => destruct p
  | |- sf_ok (emit _) => apply sf_ok_emit; simpl; exact I
  | |- sf_ok _ => solve [eauto with sfok]
  end.

Ltac sf_auto := repeat sf_step.

Section Extras.

Context {St : Type} (svc : service St) (JSON_parse : string -> string + json).
Context (owner repo : string).

(** The target tag a successful parse keeps. *)
Lemma parse_inputs_tag i (s : st St) p s' :
  parse_inputs JSON_parse i s = (inr p, s') ->
  targetTag p =
    if truthy (trim (releaseTag i)) then trim (releaseTag i)
    else if starts_with "refs/tags/" (context_ref i)
         then replace_first "refs/tags/" "" (context_ref i)
         else trim (releaseTag i).
Proof.
  unfold parse_inputs. cbv zeta.
  destruct (JSON_parse (assetPathsInput i)) as [emsg | v]; [discriminate |].
  destruct v; simpl; try discriminate. destruct l as [| j l]; [discriminate |].
  intro E.
  assert (H : forall b1 b2 tag, (when b1 (emit (Info ("Target release tag: " ++ tag))) ;;;
            when b2 (emit (Info ("Target release name: " ++ trim (releaseName i)))) ;;;
            ret (mk_parsed (j :: l) tag (trim (releaseName i))
                   (denyOverwriteBool (denyOverwrite i)))) s = (inr p, s') ->
            targetTag p = tag).
  { intros b1 b2 tag Et. pose proof (finish_inr b1 b2
      (Info ("Target release tag: " ++ tag)) (Info ("Target release name: " ++ trim (releaseName i)))
      (mk_parsed (j :: l) tag (trim (releaseName i)) (denyOverwriteBool (denyOverwrite i))) s) as F.
    rewrite Et in F. simpl in F. injection F as ->. reflexivity. }
  destruct (truthy (trim (releaseTag i))); cbn [negb] in E |- *; [exact (H _ _ _ E) |].
  destruct (starts_with _ _); [exact (H _ _ _ E) |].
  destruct (negb (truthy (trim (releaseName i)))); [discriminate | exact (H _ _ _ E)].
Qed.

(** X1: the target tag is the supplied tag, trimmed as JS [trim] does
    (ASCII and Unicode white space and line terminators), when it is not
    blank, and then it neither starts nor ends with white space; with a
    blank tag, a ref [refs/tags/<t>] gives the tag [t] as it is, untrimmed
    (whether or not a name is supplied), and any other ref leaves the tag
    empty. The name kept is the supplied name trimmed, with no white space
    at either end. *)
Theorem target_tag_from_inputs i (s : st St) p s' t :
  parse_inputs JSON_parse i s = (inr p, s') ->
  (truthy (trim (releaseTag i)) = true ->
   targetTag p = trim (releaseTag i) /\ trimmed (targetTag p)) /\
  (trim (releaseTag i) = ""%string -> context_ref i = ("refs/tags/" ++ t)%string ->
   targetTag p = t) /\
  (trim (releaseTag i) = ""%string -> starts_with "refs/tags/" (context_ref i) = false ->
   targetTag p = ""%string) /\
  trimmedReleaseName p = trim (releaseName i) /\ trimmed (trimmedReleaseName p).
Proof.
  intro E. destruct (parse_inputs_inr JSON_parse i s p s' E) as (_ & Hn & _).
  rewrite (parse_inputs_tag i s p s' E), Hn.
  split; [intros ->; split; [reflexivity | apply trim_trimmed] |]. split.
  - intros -> ->.
    assert (Hp : starts_with "refs/tags/" ("refs/tags/" ++ t) = true).
    { unfold starts_with. simpl. destruct t; reflexivity. }
    rewrite Hp. exact (replace_first_tag_ref t).
  - split; [intros -> ->; reflexivity |]. split; [reflexivity | apply trim_trimmed].
Qed.

(** The resolver with neither a tag nor a name does nothing. *)
Lemma resolve_release_empty fuel p s :
  targetTag p = ""%string -> trimmedReleaseName p = ""%string ->
  resolve_release svc owner repo fuel p s = (inr None, s).
Proof.
  intros Ht Hn. unfold resolve_release. cbv zeta. rewrite Ht, Hn. reflexivity.
Qed.

Lemma upload_one_none_not_remote deny f urls :
  emits_only not_remote (upload_one svc None deny f urls).
Proof.
  unfold upload_one. cbv zeta. unfold upload_call, replace_existing. simpl. emits_auto2.
Qed.

Lemma upload_all_none_not_remote deny files urls :
  emits_only not_remote (upload_all svc None deny files urls).
Proof.
  revert urls. induction files as [| f r IH]; intro urls; simpl; emits_auto2; auto.
  apply upload_one_none_not_remote.
Qed.

Lemma glob_pattern_not_remote pat : emits_only not_remote (glob_pattern svc pat).
Proof. unfold glob_pattern. emits_auto2. Qed.

Lemma filter_files_not_remote ms files : emits_only not_remote (filter_files svc ms files).
Proof. revert files. induction ms as [| m ms IH]; intro files; simpl; emits_auto2; auto. Qed.

Lemma collect_patterns_not_remote ps acc : emits_only not_remote (collect_patterns svc ps acc).
Proof.
  revert acc. induction ps as [| pat r IH]; intro acc; simpl; emits_auto2;
    auto using glob_pattern_not_remote, filter_files_not_remote.
Qed.

Lemma report_appending rel urls : appending (report (St := St) rel urls).
Proof. unfold report. appending_auto. Qed.

(** X3: when the indexed lookup finds a release by the target tag and no
    name is supplied or the release has that name, the resolver returns it
    after that single request, without listing. *)
Theorem indexed_lookup_used fuel p x t rel :
  truthy (targetTag p) = true ->
  getReleaseByTag svc (targetTag p) x = inr rel ->
  (truthy (trimmedReleaseName p) = false \/ rel_name rel = Some (trimmedReleaseName p)) ->
  exists tr,
    resolve_release svc owner repo fuel p (mk_st x t) = (inr (Some rel), mk_st x (t ++ tr)) /\
    calls tr = [CallGetReleaseByTag (targetTag p)].
Proof.
  intros Ht Hg Hn.
  assert (Hc : truthy (trimmedReleaseName p) && negb (opt_eq_str (rel_name rel) (trimmedReleaseName p))
               = false).
  { destruct Hn as [-> | ->]; [reflexivity |]. simpl. rewrite String.eqb_refl.
    apply andb_false_r. }
  unfold resolve_release. cbv zeta. rewrite Ht.
  unfold query, perform, bind, emit, ret. cbn [svc_state trace]. rewrite Hg.
  rewrite Hc. cbn. eexists. split; [rewrite <- !app_assoc; reflexivity | reflexivity].
Qed.

(** The indexed lookup fails with an error other than not-found. *)
Lemma resolve_lookup_error fuel p x t e :
  truthy (targetTag p) = true ->
  getReleaseByTag svc (targetTag p) x = inl e -> status_is e 404 = false ->
  resolve_release svc owner repo fuel p (mk_st x t) =
  (inl (Thrown e),
   mk_st x (t ++ [Info ("Attempting to fetch release by tag: " ++ targetTag p);
                  Info ("Repository: " ++ owner ++ "/" ++ repo);
                  Call (CallGetReleaseByTag (targetTag p))])).
Proof.
  intros Ht Hg H4. unfold resolve_release. cbv zeta. rewrite Ht.
  unfold query, perform, bind, emit. cbn [svc_state trace]. rewrite Hg.
  cbv beta iota. rewrite H4. unfold throw. rewrite <- !app_assoc. reflexivity.
Qed.

(** X4: when the indexed lookup by tag fails with an error whose status is
    not 404 (a server error, a rate limit, a bad token), the run ends by
    rethrowing that error right after the lookup: no page is listed, no
    pattern expanded, no file read or uploaded, and the service state is
    left as it was. *)
Theorem lookup_error_aborts fuel i x0 p s1 e :
  parse_inputs JSON_parse i (mk_st x0 []) = (inr p, s1) ->
  truthy (targetTag p) = true ->
  getReleaseByTag svc (targetTag p) x0 = inl e -> status_is e 404 = false ->
  exists tr,
    exec svc JSON_parse owner repo fuel i x0 = (inl (Thrown e), mk_st x0 tr) /\
    calls tr = [CallGetReleaseByTag (targetTag p)].
Proof.
  intros E Ht Hg H4.
  pose proof (parse_inputs_state JSON_parse i _ _ _ E) as Hx.
  pose proof (parse_inputs_no_call JSON_parse i x0) as Q. rewrite E in Q. simpl in Q.
  destruct s1 as [x1 t1]. simpl in Hx, Q. subst x1.
  unfold exec, run. rewrite (bind_inr _ _ _ _ _ E).
  rewrite (bind_inl _ _ _ _ _ (resolve_lookup_error fuel p x0 t1 e Ht Hg H4)).
  eexists. split; [reflexivity |].
  rewrite calls_app, (calls_quiet _ Q). reflexivity.
Qed.

Lemma list_loop_resolver tag name fuel page :
  emits_only (resolver_call tag) (list_loop svc tag name fuel page).
Proof. revert page. induction fuel as [| f IH]; intro page; simpl; emits_auto2; auto. Qed.

Lemma resolve_release_resolver fuel p :
  emits_only (resolver_call (targetTag p)) (resolve_release svc owner repo fuel p).
Proof.
  unfold resolve_release. cbv zeta.
  destruct (truthy (targetTag p)) eqn:Ht; cbv beta iota; emits_auto2;
    auto using list_loop_resolver.
Qed.

Lemma list_loop_keeps tag name fuel page : keeps_state (list_loop svc tag name fuel page).
Proof. revert page. induction fuel as [| f IH]; intro page; simpl; keeps_auto; auto. Qed.

Lemma resolve_release_keeps fuel p : keeps_state (resolve_release svc owner repo fuel p).
Proof. unfold resolve_release. cbv zeta. keeps_auto; auto using list_loop_keeps. Qed.

(** X6: the resolver only ever calls the indexed lookup, with the target
    tag and only when that tag is not empty, and the listing, with pages
    of 100; it never reads, uploads, deletes or expands a pattern, and it
    does not change the service state. *)
Theorem resolver_calls_only fuel p (s : st St) r s' :
  resolve_release svc owner repo fuel p s = (r, s') ->
  svc_state s' = svc_state s /\
  exists tr, trace s' = trace s ++ tr /\ Forall (resolver_call (targetTag p)) tr.
Proof.
  intro E.
  destruct (emits_only_run _ _ _ _ _ (resolve_release_appending svc owner repo fuel p)
              (resolve_release_resolver fuel p) E) as (tr & Htr & Hf).
  split; [exact (resolve_release_keeps fuel p _ _ _ E) | exists tr; auto].
Qed.

(** One file whose read fails. *)
Lemma upload_one_read_error rel deny f urls x t e :
  readFileSync svc f x = inl e ->
  upload_one svc rel deny f urls (mk_st x t) = (inl (Thrown e), mk_st x (t ++ [Call (CallRead f)])).
Proof.
  intro Hr. unfold upload_one, query, perform, bind, emit, or_throw. simpl.
  rewrite Hr. reflexivity.
Qed.

(** One file whose upload fails with an error that is not a conflict. *)
Lemma upload_one_failed rel deny f urls x t content e x1 :
  readFileSync svc f x = inr content ->
  uploadReleaseAsset svc (release_id rel) (basename f) content x = (inl e, x1) ->
  is_conflict e = false ->
  upload_one svc (Some rel) deny f urls (mk_st x t) =
  (inl (Thrown e),
   mk_st x1 (t ++ [Call (CallRead f); Info (msg_uploading (basename f) content);
                   Call (CallUpload (release_id rel) (basename f));
                   Error (msg_upload_failed (basename f) e)])).
Proof.
  intros Hr Hup Hc. unfold upload_one, query, perform, bind, emit, or_throw, ret.
  simpl. rewrite Hr. simpl. unfold upload_call, release_id_of, perform, bind, emit.
  simpl. rewrite Hup. simpl. rewrite Hc. unfold throw.
  cbn [svc_state trace]. rewrite <- !app_assoc. reflexivity.
Qed.

Lemma glob_pattern_keeps pat : keeps_state (glob_pattern svc pat).
Proof. unfold glob_pattern. keeps_auto. Qed.

Lemma filter_files_keeps ms files : keeps_state (filter_files svc ms files).
Proof. revert files. induction ms as [| m ms IH]; intro files; simpl; keeps_auto; auto. Qed.

Lemma collect_patterns_keeps ps acc : keeps_state (collect_patterns svc ps acc).
Proof.
  revert acc. induction ps as [| pat r IH]; intro acc; simpl; keeps_auto;
    auto using glob_pattern_keeps, filter_files_keeps.
Qed.

Lemma plan_uploads_keeps files : keeps_state (plan_uploads (St := St) files).
Proof. unfold plan_uploads. cbv zeta. keeps_auto. Qed.

(** Without a release, a file that is read is not uploaded: reading
    [release.id] throws. *)
Lemma upload_one_none_read_ok deny f urls x t content :
  readFileSync svc f x = inr content ->
  exists s', upload_one svc None deny f urls (mk_st x t) = (inl (Thrown (type_error "id")), s').
Proof.
  intro Hr. unfold upload_one, query, perform, bind, emit, or_throw, ret. simpl.
  rewrite Hr. simpl. unfold throw. eexists. reflexivity.
Qed.

(** X2: with a blank tag, a blank name (blank for JS [trim]) and the ref
    [refs/tags/] itself, a valid non-empty pattern array is parsed with an
    empty tag and an empty name, without a log line or a call. The run then
    never calls the GitHub API and fails in one of three ways: the
    collection throws (the error of a glob or a stat, or a pattern that is
    not a string); the collection is empty and the run fails with no files
    found; or the first file is read and either the read throws or reading
    [release.id] on the undefined release throws a TypeError. *)
Theorem bare_tag_ref_no_remote_call fuel i x0 paths :
  JSON_parse (assetPathsInput i) = inr (JArr paths) -> paths <> [] ->
  trim (releaseTag i) = ""%string -> trim (releaseName i) = ""%string ->
  context_ref i = "refs/tags/"%string ->
  parse_inputs JSON_parse i (mk_st x0 []) =
    (inr (mk_parsed paths "" "" (denyOverwriteBool (denyOverwrite i))), mk_st x0 []) /\
  (forall c, In c (calls (trace (snd (exec svc JSON_parse owner repo fuel i x0)))) ->
             is_remote c = false) /\
  ((exists e s3, collect_patterns svc paths [] (mk_st x0 []) = (inl (Thrown e), s3) /\
                 exec svc JSON_parse owner repo fuel i x0 = (inl (Thrown e), s3)) \/
   (exists s3, collect_patterns svc paths [] (mk_st x0 []) = (inr [], s3) /\
               fst (exec svc JSON_parse owner repo fuel i x0) = inl (Fail msg_no_files)) \/
   (exists files s3 f rest,
      collect_patterns svc paths [] (mk_st x0 []) = (inr files, s3) /\
      dedup files = f :: rest /\
      ((exists e, readFileSync svc f x0 = inl e /\
                  fst (exec svc JSON_parse owner repo fuel i x0) = inl (Thrown e)) \/
       (exists content, readFileSync svc f x0 = inr content /\
                  fst (exec svc JSON_parse owner repo fuel i x0) =
                    inl (Thrown (type_error "id")))))).
Proof.
  intros HJ Hne Ht Hn Hr.
  set (p := mk_parsed paths "" "" (denyOverwriteBool (denyOverwrite i))).
  assert (E1 : parse_inputs JSON_parse i (mk_st x0 []) = (inr p, mk_st x0 [])).
  { unfold parse_inputs. cbv zeta. rewrite HJ. simpl.
    destruct paths as [| j l]; [contradiction |]. rewrite Ht, Hn, Hr. reflexivity. }
  pose proof (parse_inputs_no_call JSON_parse i x0) as Q1. rewrite E1 in Q1. simpl in Q1.
  pose proof (resolve_release_empty fuel p (mk_st x0 []) eq_refl eq_refl) as E2.
  split; [exact E1 |]. split.
  - unfold exec, run.
    rewrite (bind_inr _ _ _ _ _ E1), (bind_inr _ _ _ _ _ E2).
    match goal with |- context [bind ?m ?k (mk_st x0 [])] =>
      assert (Hq : emits_only not_remote (bind m k));
      [| assert (Ha : appending (bind m k));
         [ apply appending_bind; [apply collect_patterns_appending | intro files];
           apply appending_bind; [apply plan_uploads_appending | intro u];
           apply appending_bind; [apply upload_all_appending | intro; apply report_appending]
         | destruct (bind m k (mk_st x0 [])) as [r s'] eqn:E;
           destruct (emits_only_run _ _ _ _ _ Ha Hq E) as (tr & Htr & Hf)]]
    end.
    + emits_auto2.
      all: first [ apply plan_uploads_appending | apply report_appending
                 | apply collect_patterns_not_remote | apply upload_all_none_not_remote
                 | match goal with |- emits_only _ (plan_uploads _) =>
                     unfold plan_uploads; cbv zeta; emits_auto2 end
                 | match goal with |- emits_only _ (report _ _) =>
                     unfold report; emits_auto2 end ].
    + intros c Hc. simpl in Hc. rewrite Htr in Hc. simpl in Hc.
      exact (calls_Forall not_remote tr c Hf Hc).
  - unfold exec, run.
    rewrite (bind_inr _ _ _ _ _ E1), (bind_inr _ _ _ _ _ E2). cbn [assetPaths denyBool p].
    destruct (collect_patterns svc paths [] (mk_st x0 [])) as [[x | files] s3] eqn:E3.
    { destruct (collect_patterns_throws svc _ _ _ _ _ E3) as [e ->].
      left. exists e, s3. split; [reflexivity |]. exact (bind_inl _ _ _ _ _ E3). }
    right. rewrite (bind_inr _ _ _ _ _ E3).
    assert (K3 : svc_state s3 = x0) by exact (collect_patterns_keeps paths [] _ _ _ E3).
    destruct (dedup files) as [| f rest] eqn:Hd.
    { left. apply (proj1 (dedup_nil files)) in Hd as Hf. subst files.
      exists s3. split; [reflexivity |].
      rewrite (bind_inl _ _ _ _ _ (plan_uploads_empty [] s3 Hd)). reflexivity. }
    right. exists files, s3, f, rest. split; [reflexivity | split; [exact Hd |]].
    destruct (plan_uploads files s3) as [[x | u] s4] eqn:E4.
    { exfalso. apply (plan_uploads_nonempty files s3 x s4); [rewrite Hd; discriminate | exact E4]. }
    rewrite (bind_inr _ _ _ _ _ E4).
    destruct (plan_uploads_inr files s3 u s4 E4) as [Hu _]. rewrite Hd in Hu. subst u.
    assert (K4 : svc_state s4 = x0) by (rewrite <- K3; exact (plan_uploads_keeps files _ _ _ E4)).
    destruct s4 as [x4 t4]. simpl in K4. subst x4. cbn [upload_all].
    destruct (readFileSync svc f x0) as [e | content] eqn:Hrd.
    + left. exists e. split; [reflexivity |].
      rewrite (bind_inl _ _ _ _ _ (bind_inl _ _ _ _ _
                 (upload_one_read_error None _ f [] x0 t4 e Hrd))).
      reflexivity.
    + right. exists content. split; [reflexivity |].
      destruct (upload_one_none_read_ok (denyOverwriteBool (denyOverwrite i)) f [] x0 t4 content Hrd)
        as [s' Hs'].
      rewrite (bind_inl _ _ _ _ _ (bind_inl _ _ _ _ _ Hs')). reflexivity.
Qed.

(** X7: when the upload of a file fails with an error that is not an
    already-exists conflict, the run logs the failure with [core.error] and
    rethrows that error, whatever [deny_overwrite] says: nothing is deleted,
    the upload is not retried, no later file is read and [core.setFailed]
    is not called. *)
Theorem upload_error_not_retried fuel i x0 p rel pre f rest urls s5 content e x1 :
  reaches_file svc JSON_parse owner repo fuel i x0 p (Some rel) pre f rest urls s5 ->
  readFileSync svc f (svc_state s5) = inr content ->
  uploadReleaseAsset svc (release_id rel) (basename f) content (svc_state s5) = (inl e, x1) ->
  is_conflict e = false ->
  exec svc JSON_parse owner repo fuel i x0 =
  (inl (Thrown e),
   mk_st x1 (trace s5 ++ [Call (CallRead f); Info (msg_uploading (basename f) content);
                          Call (CallUpload (release_id rel) (basename f));
                          Error (msg_upload_failed (basename f) e)])).
Proof.
  intros R Hr Hup Hc. destruct s5 as [x t]. simpl in Hr, Hup |- *.
  exact (exec_file_fails svc JSON_parse owner repo _ _ _ _ _ _ _ _ _ _ _ _ R
           (upload_one_failed rel (denyBool p) f urls x t content e x1 Hr Hup Hc)).
Qed.

(** X8: when a file of the plan cannot be read, the error of
    [fs.readFileSync], which is outside every [try], ends the run at once:
    the read is the last thing the run does, nothing is logged for it and
    [core.setFailed] is not called. *)
Theorem read_error_uncaught fuel i x0 p rel pre f rest urls s5 e :
  reaches_file svc JSON_parse owner repo fuel i x0 p rel pre f rest urls s5 ->
  readFileSync svc f (svc_state s5) = inl e ->
  exec svc JSON_parse owner repo fuel i x0 =
  (inl (Thrown e), mk_st (svc_state s5) (trace s5 ++ [Call (CallRead f)])).
Proof.
  intros R Hr. destruct s5 as [x t]. simpl in Hr |- *.
  exact (exec_file_fails svc JSON_parse owner repo _ _ _ _ _ _ _ _ _ _ _ _ R
           (upload_one_read_error rel (denyBool p) f urls x t e Hr)).
Qed.

Lemma collect_patterns_before ps acc : emits_only before_upload (collect_patterns svc ps acc).
Proof.
  assert (G : forall pat, emits_only before_upload (glob_pattern svc pat)).
  { intro pat. unfold glob_pattern. emits_auto2. }
  assert (F : forall ms files, emits_only before_upload (filter_files svc ms files)).
  { induction ms as [| m ms IH]; intro files; simpl; emits_auto2; auto. }
  revert acc. induction ps as [| pat r IH]; intro acc; simpl; emits_auto2; auto.
Qed.

(** X9: when expanding the patterns fails (a pattern that is not a string,
    a glob error, or a [stat] error such as a dangling link), the run ends
    with that error thrown by the collector, before any file is read,
    uploaded or deleted. *)
Theorem collection_error_aborts fuel i x0 p s1 rel s2 x s3 :
  parse_inputs JSON_parse i (mk_st x0 []) = (inr p, s1) ->
  resolve_release svc owner repo fuel p s1 = (inr rel, s2) ->
  collect_patterns svc (assetPaths p) [] s2 = (inl x, s3) ->
  exec svc JSON_parse owner repo fuel i x0 = (inl x, s3) /\
  (exists e, x = Thrown e) /\ Forall before_upload (trace s3).
Proof.
  intros E1 E2 E3. split; [| split].
  - unfold exec, run. rewrite (bind_inr _ _ _ _ _ E1), (bind_inr _ _ _ _ _ E2).
    exact (bind_inl _ _ _ _ _ E3).
  - exact (collect_patterns_throws svc _ _ _ _ _ E3).
  - pose proof (parse_inputs_no_call JSON_parse i x0) as Q1. rewrite E1 in Q1. simpl in Q1.
    destruct (emits_only_run _ _ _ _ _ (resolve_release_appending svc owner repo fuel p)
                (resolve_release_resolver fuel p) E2) as (tr2 & H2 & F2).
    destruct (emits_only_run _ _ _ _ _ (collect_patterns_appending svc _ _)
                (collect_patterns_before _ _) E3) as (tr3 & H3 & F3).
    rewrite H3, H2, !Forall_app. split; [split |]; [| | exact F3].
    + eapply Forall_impl; [| exact Q1]. intros [| | | | | | []]; simpl; tauto.
    + eapply Forall_impl; [| exact F2]. intros [| | | | | | []]; simpl; tauto.
Qed.

(** X10: when the collection is not empty, the plan is its deduplication;
    if no path occurs twice the plan is the collection itself and only the
    total is logged; otherwise a warning gives the number of entries
    removed, which is positive, before the total is logged. *)
Theorem plan_uploads_duplicates files (s : st St) :
  files <> [] ->
  exists tr,
    plan_uploads files s = (inr (dedup files), mk_st (svc_state s) (trace s ++ tr)) /\
    (NoDup files ->
     dedup files = files /\
     tr = [Info ("Total files to upload: " ++ nat_to_string (length files))]) /\
    (~ NoDup files ->
     0 < length files - length (dedup files) /\
     tr = [Warning ("Removed " ++ nat_to_string (length files - length (dedup files)) ++
                    " duplicate file(s) from overlapping glob patterns");
           Info ("Total files to upload: " ++ nat_to_string (length (dedup files)))]).
Proof.
  intro Hne. destruct s as [x t].
  assert (Hd : Nat.eqb (length (dedup files)) 0 = false).
  { destruct (dedup files) eqn:E; [| reflexivity]. apply (proj1 (dedup_nil files)) in E. exfalso. exact (Hne E). }
  pose proof (dedup_length_NoDup files) as HL.
  pose proof (first_occ_length_le files) as Hle. rewrite <- dedup_first_occ in Hle.
  unfold plan_uploads. cbv zeta. rewrite Hd.
  destruct (Nat.eqb (length files) (length (dedup files))) eqn:El;
    apply Nat.eqb_eq in El || apply Nat.eqb_neq in El; cbn [negb].
  - assert (Hn : NoDup files) by (apply HL; lia).
    pose proof (first_occ_id _ Hn) as Hid. rewrite <- dedup_first_occ in Hid.
    eexists. split; [reflexivity |]. split.
    + intros _. split; [exact Hid |]. rewrite Hid. reflexivity.
    + intro Hc. contradiction.
  - eexists. split; [unfold bind, when, emit, ret; simpl; rewrite <- !app_assoc; reflexivity |].
    split.
    + intro Hn. apply HL in Hn. lia.
    + intros _. split; [lia | reflexivity].
Qed.

Lemma replace_existing_targets rel f content e urls files :
  In f files ->
  emits_only (upload_target rel false files)
    (replace_existing svc (Some rel) (basename f) content e urls).
Proof.
  intro Hf. unfold replace_existing, release_assets_of. cbv iota.
  destruct (find _ (assets rel)) as [a |] eqn:Hfind.
  - apply find_some in Hfind as [Ha Hn]. apply String.eqb_eq in Hn.
    unfold upload_call, release_id_of. emits_auto2.
  - emits_auto2.
Qed.

Lemma upload_one_targets rel deny f urls files :
  In f files -> emits_only (upload_target rel deny files) (upload_one svc (Some rel) deny f urls).
Proof.
  intro Hf. unfold upload_one, upload_call, release_id_of. cbv zeta.
  destruct deny; cbv beta iota; emits_auto2; apply replace_existing_targets; exact Hf.
Qed.

Lemma upload_all_targets_sub rel deny files urls files' :
  incl files' files ->
  emits_only (upload_target rel deny files) (upload_all svc (Some rel) deny files' urls).
Proof.
  revert urls. induction files' as [| f r IH]; intros urls Hi; simpl; emits_auto2.
  - apply upload_one_targets. apply Hi. left. reflexivity.
  - apply IH. intros g Hg. apply Hi. right. exact Hg.
Qed.

(** X11: the upload loop only uploads to the resolved release, under the
    base name of a file of the plan, and only deletes, when overwriting is
    allowed, an asset of the release's snapshot whose name is the base name
    of a file of the plan; it never looks up or lists releases. *)
Theorem upload_all_targets rel deny files urls (s : st St) r s' :
  upload_all svc (Some rel) deny files urls s = (r, s') ->
  exists tr, trace s' = trace s ++ tr /\ Forall (upload_target rel deny files) tr.
Proof.
  intro E.
  exact (emits_only_run _ _ _ _ _ (upload_all_appending svc _ _ _ _)
           (upload_all_targets_sub rel deny files urls files (incl_refl _)) E).
Qed.

Lemma upload_one_reads rel deny f urls (s : st St) r s' :
  upload_one svc rel deny f urls s = (r, s') ->
  exists tr, trace s' = trace s ++ Call (CallRead f) :: tr /\ Forall not_read tr.
Proof.
  destruct s as [x t]. unfold upload_one. cbv zeta. rewrite bind_query.
  match goal with |- bind (or_throw _) ?k _ = _ -> _ =>
    assert (Hk : forall rc, emits_only not_read (bind (or_throw rc) k) /\
                            appending (bind (or_throw rc) k)) end.
  { intro rc. split; [unfold replace_existing, upload_call; emits_auto2 | appending_auto]. }
  intro E. destruct (Hk (readFileSync svc f x)) as [Hq Ha].
  destruct (emits_only_run _ _ _ _ _ Ha Hq E) as (tr & H1 & H2).
  exists tr. simpl in H1. rewrite H1, <- app_assoc. auto.
Qed.

(** X12: the upload loop reads the files of the plan one at a time, in
    plan order, each once: a loop that completes has read exactly the plan,
    and a loop that fails stopped at some file [f], having read the files
    before it and then [f], and no later file. *)
Theorem upload_all_reads_in_order rel deny files urls (s : st St) r s' :
  upload_all svc rel deny files urls s = (r, s') ->
  exists tr, trace s' = trace s ++ tr /\
    match r with
    | inr _ => reads tr = files
    | inl _ => exists pre f rest, files = pre ++ f :: rest /\ reads tr = pre ++ [f]
    end.
Proof.
  revert urls s. induction files as [| f rest IH]; intros urls s E; simpl in E.
  - injection E as <- <-. exists []. rewrite app_nil_r. auto.
  - unfold bind in E. destruct (upload_one svc rel deny f urls s) as [[x1 | u] s1] eqn:E1;
      destruct (upload_one_reads _ _ _ _ _ _ _ E1) as (tr1 & H1 & F1).
    + injection E as <- <-. exists (Call (CallRead f) :: tr1). split; [exact H1 |].
      exists [], f, rest. split; [reflexivity |]. simpl. rewrite (reads_quiet _ F1). reflexivity.
    + destruct (IH _ _ E) as (tr2 & H2 & R2).
      exists (Call (CallRead f) :: tr1 ++ tr2).
      split; [rewrite H2, H1, <- app_assoc; reflexivity |].
      simpl. rewrite reads_app, (reads_quiet _ F1). simpl. destruct r.
      * destruct R2 as (pre & g & rest' & -> & ->).
        exists (f :: pre), g, rest'. auto.
      * rewrite R2. reflexivity.
Qed.

Lemma parse_inputs_sf i : sf_ok (parse_inputs (St := St) JSON_parse i).
Proof. unfold parse_inputs. cbv zeta. sf_auto. Qed.

Lemma list_loop_sf tag name fuel page : sf_ok (list_loop svc tag name fuel page).
Proof. revert page. induction fuel as [| f IH]; intro page; simpl; sf_auto; auto. Qed.

Lemma resolve_release_sf fuel p : sf_ok (resolve_release svc owner repo fuel p).
Proof. unfold resolve_release. cbv zeta. sf_auto; auto using list_loop_sf. Qed.

Lemma collect_patterns_sf ps acc : sf_ok (collect_patterns svc ps acc).
Proof.
  assert (G : forall pat, sf_ok (glob_pattern svc pat)).
  { intro pat. unfold glob_pattern. sf_auto. }
  assert (F : forall ms files, sf_ok (filter_files svc ms files)).
  { induction ms as [| m ms IH]; intro files; simpl; sf_auto; auto. }
  revert acc. induction ps as [| pat r IH]; intro acc; simpl; sf_auto; auto.
Qed.

Lemma plan_uploads_sf files : sf_ok (plan_uploads (St := St) files).
Proof. unfold plan_uploads. cbv zeta. sf_auto. Qed.

Lemma upload_one_sf rel deny f urls : sf_ok (upload_one svc rel deny f urls).
Proof. unfold upload_one, replace_existing, upload_call. cbv zeta. sf_auto. Qed.

Lemma upload_all_sf rel deny files urls : sf_ok (upload_all svc rel deny files urls).
Proof.
  revert urls. induction files as [| f r IH]; intro urls; simpl; sf_auto; auto using upload_one_sf.
Qed.

Lemma report_sf rel urls : sf_ok (report (St := St) rel urls).
Proof. unfold report. sf_auto. Qed.

(** X13: [core.setFailed] is called at most once in a run, and only as its
    last event: a run that completes never calls it; a run that stops with
    [core.setFailed(msg); return] calls it once, with that message, last;
    a run that ends with a thrown error either never calls it or calls it
    once, last, with the message of a denied overwrite. *)
Theorem set_failed_last fuel i x0 :
  let (r, s) := exec svc JSON_parse owner repo fuel i x0 in sf_shape r (trace s).
Proof.
  assert (H : sf_ok (run svc JSON_parse owner repo fuel i)).
  { unfold run. sf_auto.
    all: first [ apply parse_inputs_sf | apply resolve_release_sf | apply collect_patterns_sf
               | apply plan_uploads_sf | apply upload_all_sf | apply report_sf
               | apply report_appending | apply plan_uploads_appending ]. }
  unfold exec. destruct (run svc JSON_parse owner repo fuel i (mk_st x0 [])) as [r s] eqn:E.
  exact (H _ _ _ E).
Qed.

(** X5: when the resolver falls back to the listing (the indexed lookup
    reported not-found, or only a name was given) and the first page
    cannot be fetched, the run rethrows that error: it neither reports the
    release as not found nor requests another page, and the service state
    is left as it was. *)
Theorem listing_error_aborts fuel i x0 p s1 e :
  parse_inputs JSON_parse i (mk_st x0 []) = (inr p, s1) ->
  (truthy (targetTag p) = true /\
   exists e0, getReleaseByTag svc (targetTag p) x0 = inl e0 /\ status_is e0 404 = true) \/
  (truthy (targetTag p) = false /\ truthy (trimmedReleaseName p) = true) ->
  0 < fuel ->
  listReleases svc per_page 1 x0 = inl e ->
  exists tr,
    exec svc JSON_parse owner repo fuel i x0 = (inl (Thrown e), mk_st x0 tr) /\
    listed_pages tr = [1%Z].
Proof.
  intros E H Hf Hl.
  pose proof (parse_inputs_state JSON_parse i _ _ _ E) as Hx.
  pose proof (parse_inputs_no_call JSON_parse i x0) as Q. rewrite E in Q. simpl in Q.
  destruct s1 as [x1 t1]. simpl in Hx, Q. subst x1.
  destruct (resolve_fallback svc owner repo fuel p x0 t1 H) as (pre & Hpre & R).
  destruct fuel as [| f]; [lia |].
  assert (R' : resolve_release svc owner repo (S f) p (mk_st x0 t1) =
               (inl (Thrown e), mk_st x0 ((t1 ++ pre) ++ [Call (CallListReleases per_page 1)]))).
  { rewrite R. cbn [list_loop]. unfold bind at 1. rewrite bind_query, Hl. reflexivity. }
  unfold exec, run. rewrite (bind_inr _ _ _ _ _ E), (bind_inl _ _ _ _ _ R').
  eexists. split; [reflexivity |].
  rewrite !listed_pages_app, (listed_pages_quiet _ Q), Hpre. reflexivity.
Qed.

(** C7 (as the code has it): once the inputs are parsed and the release is
    resolved, the run fails with [NoFilesFound] exactly when the collection
    completes and its deduplicated result is empty; in that case every
    pattern has been expanded and reported by a warning, and no output is
    set. If parsing fails, the run ends with that failure, having made no
    call; if the resolution fails, the run ends with that failure, having
    made only the resolver's calls: in both cases no pattern is expanded,
    whatever the collection would have found. *)
Theorem no_files_found_after_resolution fuel i x0 :
  (forall p s1 rel s2,
   parse_inputs JSON_parse i (mk_st x0 []) = (inr p, s1) ->
   resolve_release svc owner repo fuel p s1 = (inr rel, s2) ->
   (fst (exec svc JSON_parse owner repo fuel i x0) = inl (Fail msg_no_files) <->
    exists files s3, collect_patterns svc (assetPaths p) [] s2 = (inr files, s3) /\
                     dedup files = []) /\
   (fst (exec svc JSON_parse owner repo fuel i x0) = inl (Fail msg_no_files) ->
    outputs (trace (snd (exec svc JSON_parse owner repo fuel i x0))) = [] /\
    forall pat, In pat (assetPaths p) -> exists ptxt, pat = JStr ptxt /\
      In (Call (CallGlob ptxt)) (trace (snd (exec svc JSON_parse owner repo fuel i x0))) /\
      In (Warning ("No files matched pattern: " ++ ptxt))
         (trace (snd (exec svc JSON_parse owner repo fuel i x0))))) /\
  (forall x s1,
   parse_inputs JSON_parse i (mk_st x0 []) = (inl x, s1) ->
   exec svc JSON_parse owner repo fuel i x0 = (inl x, s1) /\ calls (trace s1) = []) /\
  (forall p s1 x s2,
   parse_inputs JSON_parse i (mk_st x0 []) = (inr p, s1) ->
   resolve_release svc owner repo fuel p s1 = (inl x, s2) ->
   exec svc JSON_parse owner repo fuel i x0 = (inl x, s2) /\
   Forall (resolver_call (targetTag p)) (trace s2) /\
   forall ptxt, ~ In (CallGlob ptxt) (calls (trace s2))).
Proof.
  split; [| split].
  2: { intros x s1 E1. unfold exec, run. split; [exact (bind_inl _ _ _ _ _ E1) |].
       destruct (emits_only_run _ _ _ _ _ (parse_inputs_appending JSON_parse i)
                   (parse_inputs_no_call JSON_parse i) E1) as (tr & -> & Q).
       exact (calls_quiet _ Q). }
  2: { intros p s1 x s2 E1 E2. unfold exec, run.
       split; [rewrite (bind_inr _ _ _ _ _ E1); exact (bind_inl _ _ _ _ _ E2) |].
       destruct (emits_only_run _ _ _ _ _ (parse_inputs_appending JSON_parse i)
                   (parse_inputs_no_call JSON_parse i) E1) as (tr1 & H1 & Q1).
       destruct (emits_only_run _ _ _ _ _ (resolve_release_appending svc owner repo fuel p)
                   (resolve_release_resolver fuel p) E2) as (tr2 & H2 & Q2).
       assert (HF : Forall (resolver_call (targetTag p)) (trace s2)).
       { rewrite H2, H1. rewrite !Forall_app. split; [split; [constructor |] | exact Q2].
         eapply Forall_impl; [| exact Q1]. intros [] H; simpl in *; tauto. }
       split; [exact HF |]. intros ptxt Hg. exact (calls_Forall _ _ _ HF Hg). }
  intros p s1 rel s2 E1 E2.
  assert (Hq : fst (exec svc JSON_parse owner repo fuel i x0) = inl (Fail msg_no_files) ->
               outputs (trace (snd (exec svc JSON_parse owner repo fuel i x0))) = []).
  { pose proof (exec_shape svc JSON_parse owner repo fuel i x0) as Sh.
    destruct (exec svc JSON_parse owner repo fuel i x0) as [[x | u] s]; simpl;
      intro H; [apply outputs_quiet; exact Sh | discriminate]. }
  revert Hq. unfold exec, run.
  rewrite (bind_inr _ _ _ _ _ E1), (bind_inr _ _ _ _ _ E2).
  destruct (collect_patterns svc (assetPaths p) [] s2) as [[x | files] s3] eqn:E3.
  { rewrite (bind_inl _ _ _ _ _ E3). cbn [fst snd].
    destruct (collect_patterns_throws svc _ _ _ _ _ E3) as [e ->].
    intros _. split; [split; [discriminate | intros (files & s3' & E & _); congruence] |].
    discriminate. }
  rewrite (bind_inr _ _ _ _ _ E3).
  destruct (dedup files) as [| d ds] eqn:Hd.
  - rewrite (bind_inl _ _ _ _ _ (plan_uploads_empty files s3 Hd)). cbn [fst snd trace].
    intro Hq. split; [split; [intros _; eauto | reflexivity] |].
    intros H. split; [exact (Hq H) |].
    apply (proj1 (dedup_nil files)) in Hd. subst files.
    destruct (collect_patterns_warns svc _ _ _ _ _ E3) as [_ Hw].
    intros pat Hp. destruct (Hw eq_refl pat Hp) as (ptxt & -> & Hg & Hw').
    exists ptxt. split; [reflexivity |]. split; apply in_or_app; left; assumption.
  - destruct (plan_uploads files s3) as [[x | unique] s4] eqn:E4.
    { exfalso. apply (plan_uploads_nonempty files s3 x s4); [rewrite Hd; discriminate | exact E4]. }
    rewrite (bind_inr _ _ _ _ _ E4).
    assert (Hn : fst (bind (upload_all svc rel (denyBool p) unique []) (report rel) s4)
                 <> inl (Fail msg_no_files)).
    { apply fst_not_fail. apply throws_only_bind;
        [apply upload_all_throws | intro; apply report_throws]. }
    intros _. split; [split; [intro H; contradiction | intros (files' & s3' & E & Hd')] |].
    + injection E as <- _. congruence.
    + intro H. contradiction.
Qed.

End Extras.

(** ** Two files of the plan with the same base name, on the REST model *)

Lemma find_set_assets rid (g : list asset -> list asset) x :
  find (fun r => Z.eqb (release_id r) rid) (GitHub.set_assets rid g x) =
  option_map (fun r => mk_release (release_id r) (tag_name r) (rel_name r) (g (assets r)) (draft r))
    (find (fun r => Z.eqb (release_id r) rid) (GitHub.releases x)).
Proof.
  unfold GitHub.set_assets. induction (GitHub.releases x) as [| r rs IH]; simpl; [reflexivity |].
  destruct (Z.eqb (release_id r) rid) eqn:H; simpl; rewrite ?H; auto.
Qed.

(** X14: with the REST model of the service and overwriting allowed, the
    upload loop cannot upload two files of the plan that have the same
    base name when the release's asset snapshot, taken when the release was
    resolved, has no asset of that name: either the first upload conflicts
    with an asset the snapshot does not list, or the second conflicts with
    the asset the first one just created; either way the loop logs that the
    asset is not in the release's assets list and throws the conflict. *)
Theorem same_basename_fails rel f1 f2 urls x t c1 c2 :
  find (fun r => Z.eqb (release_id r) (release_id rel)) (GitHub.releases x) <> None ->
  basename f2 = basename f1 ->
  find (fun a => String.eqb (asset_name a) (basename f1)) (assets rel) = None ->
  GitHub.read f1 x = inr c1 -> GitHub.read f2 x = inr c2 ->
  exists s',
    upload_all GitHub.svc (Some rel) false [f1; f2] urls (mk_st x t) =
      (inl (Thrown GitHub.already_exists), s') /\
    In (Error (msg_asset_missing (basename f1))) (trace s').
Proof.
  intros Hr Hb Hsnap H1 H2.
  assert (Hc : is_conflict GitHub.already_exists = true) by reflexivity.
  destruct (find _ (GitHub.releases x)) as [r0 |] eqn:Hf; [| congruence].
  cbn [upload_all].
  destruct (existsb (fun a => String.eqb (asset_name a) (basename f1)) (assets r0)) eqn:Hex.
  - assert (Hup : uploadReleaseAsset GitHub.svc (release_id rel) (basename f1) c1 x =
                  (inl GitHub.already_exists, x)).
    { unfold GitHub.svc. cbn [uploadReleaseAsset]. unfold GitHub.upload. rewrite Hf, Hex. reflexivity. }
    rewrite (bind_inl _ _ _ _ _
               (upload_one_conflict_unknown GitHub.svc rel f1 urls x t c1 H1
                  GitHub.already_exists x Hup Hc Hsnap)).
    eexists. split; [reflexivity |]. simpl. rewrite in_app_iff. simpl. tauto.
  - assert (Hup : uploadReleaseAsset GitHub.svc (release_id rel) (basename f1) c1 x =
      (inr (mk_asset (GitHub.next_asset_id x) (basename f1)
              (GitHub.download_url (tag_name r0) (basename f1))),
       GitHub.mk_state
         (GitHub.set_assets (release_id rel)
            (fun l => l ++ [mk_asset (GitHub.next_asset_id x) (basename f1)
                             (GitHub.download_url (tag_name r0) (basename f1))]) x)
         (GitHub.next_asset_id x + 1) (GitHub.files x) (GitHub.glob_table x))).
    { unfold GitHub.svc. cbn [uploadReleaseAsset]. unfold GitHub.upload. rewrite Hf, Hex. reflexivity. }
    rewrite (bind_inr _ _ _ _ _ (upload_one_ok GitHub.svc rel f1 urls x t c1 H1 false _ _ Hup)).
    match type of Hup with _ = (_, ?x1) =>
      assert (H2' : readFileSync GitHub.svc f2 x1 = inr c2) by exact H2;
      assert (Hup2 : uploadReleaseAsset GitHub.svc (release_id rel) (basename f2) c2 x1 =
                     (inl GitHub.already_exists, x1))
    end.
    { unfold GitHub.svc. cbn [uploadReleaseAsset]. unfold GitHub.upload. cbn [GitHub.releases].
      rewrite find_set_assets, Hf. cbn [option_map assets].
      rewrite existsb_app. simpl. rewrite Hb, String.eqb_refl, orb_true_r. reflexivity. }
    assert (Hsnap2 : find (fun a => String.eqb (asset_name a) (basename f2)) (assets rel) = None)
      by (rewrite Hb; exact Hsnap).
    rewrite (bind_inl _ _ _ _ _
               (upload_one_conflict_unknown GitHub.svc rel f2 _ _ _ c2 H2'
                  GitHub.already_exists _ Hup2 Hc Hsnap2)).
    eexists. split; [reflexivity |]. simpl. rewrite Hb. rewrite !in_app_iff. simpl. tauto.
Qed.

(** ** The claims on concrete runs of the GitHub model *)

Open Scope string_scope.

Lemma deny_overwrite_conflict_aborts_witness :
  exists s, exec GitHub.svc Json.parse "owner" "repo" 10 Examples.dist_inputs
              Examples.conflict_state = (inl (Thrown GitHub.already_exists), s).
Proof.
  eexists.
  eapply (deny_overwrite_conflict_aborts GitHub.svc Json.parse "owner" "repo" 10
            Examples.dist_inputs Examples.conflict_state _ Examples.rel_v1_a []
            "dist/a.tar.gz" ["dist/b.tar.gz"] []).
  - unfold reaches_file. do 5 eexists. repeat split; run_eq.
  - reflexivity.
  - run_eq.
  - run_eq.
  - reflexivity.
Defined.

Lemma overwrite_conflict_replaces_witness :
  exists s5 tr x3,
    upload_one GitHub.svc (Some Examples.rel_v1_a) false "dist/a.tar.gz" [] s5 =
      (inr [GitHub.download_url "v1.0.0" "a.tar.gz"], mk_st x3 (trace s5 ++ tr)) /\
    calls tr = [CallRead "dist/a.tar.gz"; CallUpload 1 "a.tar.gz"; CallDelete 7;
                CallUpload 1 "a.tar.gz"].
Proof.
  eassert (R : reaches_file GitHub.svc Json.parse "owner" "repo" 10 Examples.replace_inputs
                 Examples.conflict_state ?[p] (Some Examples.rel_v1_a) [] "dist/a.tar.gz"
                 ["dist/b.tar.gz"] [] ?[s5] /\
               denyBool ?p = false /\
               readFileSync GitHub.svc "dist/a.tar.gz" (svc_state ?s5) = inr ?[c] /\
               uploadReleaseAsset GitHub.svc 1 "a.tar.gz" ?c (svc_state ?s5) = (inl ?[e], ?[x1]) /\
               is_conflict ?e = true).
  { split; [unfold reaches_file; do 5 eexists; repeat split; run_eq |].
    split; [reflexivity | split; [run_eq | split; [run_eq | reflexivity]]]. }
  destruct R as (R & D & Rd & U & C).
  destruct (overwrite_conflict_replaces GitHub.svc Json.parse "owner" "repo" 10
              Examples.replace_inputs Examples.conflict_state _ _ _ _ _ _ _ _ _ _
              R D Rd U C) as [_ H].
  edestruct H as (_ & _ & H4); [run_eq |].
  edestruct H4 as (tr & E & Cs & _); [run_eq | run_eq |].
  eexists; exists tr; eexists. split; [exact E | exact Cs].
Defined.

Lemma name_mismatch_fails_witness :
  fst (exec GitHub.svc Json.parse "owner" "repo" 10 Examples.mismatch_inputs
         Examples.mismatch_state) = inl (Fail (msg_mismatch (Some "Good Name") "Bad Name")) /\
  listed_pages (trace (snd (exec GitHub.svc Json.parse "owner" "repo" 10
                              Examples.mismatch_inputs Examples.mismatch_state))) = [].
Proof.
  eassert (E : parse_inputs Json.parse Examples.mismatch_inputs
                 (mk_st Examples.mismatch_state []) = (inr ?[p], ?[s1])) by run_eq.
  destruct (name_mismatch_fails GitHub.svc Json.parse "owner" "repo" 10 _ _ _ _ Examples.rel_v1
              E ltac:(reflexivity) ltac:(reflexivity) ltac:(vm_compute; reflexivity)
              ltac:(reflexivity)) as (H1 & H2 & _).
  split; [exact H1 | exact H2].
Defined.

Lemma collector_no_dup_no_dir_witness :
  exists files,
    fst (collect_patterns GitHub.svc (map JStr ["dist/*"; "dist/*.tar.gz"]) []
           (mk_st Examples.dist_state [])) = inr files /\
    dedup files = ["dist/a.tar.gz"; "dist/b.tar.gz"] /\
    ~ In "dist/sub" (dedup files).
Proof.
  destruct (collector_no_dup_no_dir GitHub.svc ["dist/*"; "dist/*.tar.gz"] Examples.dist_state []
              Examples.dist_glob Examples.dist_is_file) as (E & _ & _ & Hd).
  - intros p Hp. simpl in Hp. repeat destruct Hp as [<- | Hp]; try contradiction; reflexivity.
  - intros p m Hp Hm. simpl in Hp.
    repeat destruct Hp as [<- | Hp]; try contradiction; vm_compute in Hm;
      repeat destruct Hm as [<- | Hm]; try contradiction; reflexivity.
  - exists (concat (map (fun p => filter Examples.dist_is_file (Examples.dist_glob p))
                       ["dist/*"; "dist/*.tar.gz"])).
    split; [exact E | split; [vm_compute; reflexivity | apply Hd; reflexivity]].
Defined.

Lemma download_urls_in_plan_order_witness :
  exists urls,
    outputs (trace (snd (exec GitHub.svc Json.parse "owner" "repo" 10 Examples.replace_inputs
                           Examples.conflict_state))) =
      [("download_urls", JArr (map JStr urls))].
Proof.
  eassert (E : exec GitHub.svc Json.parse "owner" "repo" 10 Examples.replace_inputs
                 Examples.conflict_state = (inr tt, ?[s])) by run_eq.
  destruct (download_urls_in_plan_order GitHub.svc Json.parse "owner" "repo" 10 _ _ _ E)
    as [(p & rel & s1 & s2 & s3 & files & urls & _ & _ & _ & Ho & _) _].
  exists urls. rewrite E. exact Ho.
Defined.

Lemma no_files_found_after_resolution_witness :
  (fst (exec GitHub.svc Json.parse "owner" "repo" 10 Examples.missing_inputs
          Examples.dist_state) = inl (Fail msg_no_files) /\
   outputs (trace (snd (exec GitHub.svc Json.parse "owner" "repo" 10 Examples.missing_inputs
                          Examples.dist_state))) = []) /\
  (exists s2, exec GitHub.svc Json.parse "owner" "repo" 10 Examples.missing_inputs
                Examples.empty_state = (inl (Fail (msg_not_found "v1.0.0" "")), s2) /\
              forall ptxt, ~ In (CallGlob ptxt) (calls (trace s2))).
Proof.
  split.
  - eassert (E1 : parse_inputs Json.parse Examples.missing_inputs
                    (mk_st Examples.dist_state []) = (inr ?[p], ?[s1])) by run_eq.
    match type of E1 with
    | _ = (inr ?p, ?s1) =>
        eassert (E2 : resolve_release GitHub.svc "owner" "repo" 10 p s1 = (inr ?[rel], ?[s2]))
          by run_eq
    end.
    destruct (proj1 (no_files_found_after_resolution GitHub.svc Json.parse "owner" "repo" 10
                       Examples.missing_inputs Examples.dist_state) _ _ _ _ E1 E2)
      as [Hiff Hout].
    assert (Hf : fst (exec GitHub.svc Json.parse "owner" "repo" 10 Examples.missing_inputs
                        Examples.dist_state) = inl (Fail msg_no_files)).
    { apply Hiff. do 2 eexists. split; [run_eq | reflexivity]. }
    split; [exact Hf | exact (proj1 (Hout Hf))].
  - eassert (E1 : parse_inputs Json.parse Examples.missing_inputs
                    (mk_st Examples.empty_state []) = (inr ?[p], ?[s1])) by run_eq.
    match type of E1 with
    | _ = (inr ?p, ?s1) =>
        eassert (E2 : resolve_release GitHub.svc "owner" "repo" 10 p s1 =
                        (inl (Fail (msg_not_found "v1.0.0" "")), ?[s2]))
          by run_eq
    end.
    destruct (proj2 (proj2 (no_files_found_after_resolution GitHub.svc Json.parse "owner" "repo"
                              10 Examples.missing_inputs Examples.empty_state)) _ _ _ _ E1 E2)
      as (He & _ & Hg).
    eexists. split; [exact He | exact Hg].
Defined.

(** The pattern [missing/*.zip] collects nothing, yet without a release
    [v1.0.0] the run fails with [ReleaseNotFound] after listing page 1,
    before any pattern is expanded: an empty collection alone does not give
    [NoFilesFound]. *)
Lemma no_files_found_counterexample :
  fst (collect_patterns GitHub.svc [JStr "missing/*.zip"] [] (mk_st Examples.empty_state [])) =
    inr [] /\
  fst (exec GitHub.svc Json.parse "owner" "repo" 10 Examples.missing_inputs
         Examples.empty_state) = inl (Fail (msg_not_found "v1.0.0" "")) /\
  msg_not_found "v1.0.0" "" <> msg_no_files /\
  calls (trace (snd (exec GitHub.svc Json.parse "owner" "repo" 10 Examples.missing_inputs
                       Examples.empty_state))) =
    [CallGetReleaseByTag "v1.0.0"; CallListReleases 100 1].
Proof.
  split; [vm_compute; reflexivity |].
  split; [vm_compute; reflexivity |].
  split; [vm_compute; discriminate | vm_compute; reflexivity].
Defined.

Lemma listing_finds_first_match_witness :
  exists p s1 K s2,
    parse_inputs Json.parse Examples.draft_inputs (mk_st Examples.draft_state []) = (inr p, s1) /\
    resolve_release GitHub.svc "owner" "repo" 10 p s1 = (inr (Some Examples.rel_draft_v2), s2) /\
    listed_pages (trace s2) = map Z.of_nat (seq 1 K).
Proof.
  eassert (E1 : parse_inputs Json.parse Examples.draft_inputs
                  (mk_st Examples.draft_state []) = (inr ?[p], ?[s1])) by run_eq.
  destruct (listing_finds_first_match GitHub.svc Json.parse "owner" "repo" 10 _ _ _ _
              (GitHub.releases Examples.draft_state) E1) as (_ & K & s2 & Er & _ & Hl & _).
  - left. split; [reflexivity |]. eexists. split; [vm_compute; reflexivity | reflexivity].
  - intros page _. reflexivity.
  - apply Nat.ltb_lt. vm_compute. reflexivity.
  - do 2 eexists. exists K, s2. split; [exact E1 | split; [| exact Hl]].
    rewrite Er. reflexivity.
Defined.

(** A tag made of a no-break space is blank for [trim]: with no name and
    a branch ref, the parser rejects the inputs and nothing is called. *)
Lemma input_parser_fails_iff_witness :
  invalid_input Json.parse Examples.nbsp_branch_inputs /\
  fst (exec GitHub.svc Json.parse "owner" "repo" 10 Examples.nbsp_branch_inputs
         Examples.dist_state) = inl (Fail msg_no_target) /\
  calls (trace (snd (exec GitHub.svc Json.parse "owner" "repo" 10 Examples.nbsp_branch_inputs
                       Examples.dist_state))) = [].
Proof.
  destruct (input_parser_fails_iff GitHub.svc Json.parse "owner" "repo" 10
              Examples.nbsp_branch_inputs Examples.dist_state) as [[_ Hiff] Hf].
  assert (Hi : invalid_input Json.parse Examples.nbsp_branch_inputs).
  { unfold invalid_input. vm_compute. right. right. repeat split. }
  split; [exact Hi |].
  destruct (Hiff Hi) as [msg Hm].
  assert (Hmsg : msg = msg_no_target).
  { vm_compute in Hm. injection Hm as <-. reflexivity. }
  subst msg. exact (proj2 (Hf _ Hm)).
Defined.

(** ** The further properties on concrete runs of the GitHub model *)

Lemma target_tag_from_inputs_witness :
  (exists p s', parse_inputs Json.parse Examples.tag_push_inputs (mk_st Examples.dist_state []) =
                (inr p, s') /\ targetTag p = "v1.0.0") /\
  (exists p s', parse_inputs Json.parse Examples.padded_tag_inputs (mk_st Examples.dist_state []) =
                (inr p, s') /\ targetTag p = "v1.0.0" /\ trimmed (targetTag p)).
Proof.
  split.
  - eassert (E : parse_inputs Json.parse Examples.tag_push_inputs (mk_st Examples.dist_state []) =
                 (inr ?[p], ?[s])) by run_eq.
    eexists. eexists. split; [exact E |].
    apply (proj1 (proj2 (target_tag_from_inputs Json.parse _ _ _ _ "v1.0.0" E))); reflexivity.
  - eassert (E : parse_inputs Json.parse Examples.padded_tag_inputs
                   (mk_st Examples.dist_state []) = (inr ?[p], ?[s])) by run_eq.
    eexists. eexists. split; [exact E |].
    destruct (proj1 (target_tag_from_inputs Json.parse _ _ _ _ "" E)) as [Ht Hw];
      [vm_compute; reflexivity |].
    split; [rewrite Ht; vm_compute; reflexivity | exact Hw].
Defined.

Lemma bare_tag_ref_no_remote_call_witness :
  fst (exec GitHub.svc Json.parse "owner" "repo" 10 Examples.bare_ref_inputs Examples.dist_state)
    = inl (Thrown (type_error "id")) /\
  (forall c, In c (calls (trace (snd (exec GitHub.svc Json.parse "owner" "repo" 10
                                           Examples.bare_ref_inputs Examples.dist_state)))) ->
             is_remote c = false).
Proof.
  destruct (bare_tag_ref_no_remote_call GitHub.svc Json.parse "owner" "repo" 10
              Examples.bare_ref_inputs Examples.dist_state [JStr "dist/*.tar.gz"])
    as (_ & Hc & Hf);
    [vm_compute; reflexivity | discriminate | vm_compute; reflexivity
    | vm_compute; reflexivity | reflexivity |].
  split; [| exact Hc].
  destruct Hf as [(e & s3 & E3 & _) | [(s3 & E3 & _) |
                  (files & s3 & f & rest & E3 & Hd & [(e & Hr & _) | (content & _ & H)])]].
  - vm_compute in E3. discriminate.
  - vm_compute in E3. discriminate.
  - vm_compute in E3. injection E3 as <- _. vm_compute in Hd. injection Hd as <- _.
    vm_compute in Hr. discriminate.
  - exact H.
Defined.

Lemma indexed_lookup_used_witness :
  exists tr,
    resolve_release GitHub.svc "owner" "repo" 10 Examples.dist_parsed (mk_st Examples.dist_state []) =
      (inr (Some Examples.rel_v1), mk_st Examples.dist_state tr) /\
    calls tr = [CallGetReleaseByTag "v1.0.0"].
Proof.
  apply (indexed_lookup_used GitHub.svc "owner" "repo" 10 Examples.dist_parsed
           Examples.dist_state [] Examples.rel_v1).
  - reflexivity.
  - vm_compute. reflexivity.
  - left. reflexivity.
Defined.

Lemma lookup_error_aborts_witness :
  exists tr,
    exec Examples.outage_svc Json.parse "owner" "repo" 10 Examples.dist_inputs Examples.dist_state =
      (inl (Thrown Examples.unavailable), mk_st Examples.dist_state tr) /\
    calls tr = [CallGetReleaseByTag "v1.0.0"].
Proof.
  eassert (E : parse_inputs Json.parse Examples.dist_inputs (mk_st Examples.dist_state []) =
               (inr ?[p], ?[s])) by run_eq.
  apply (lookup_error_aborts Examples.outage_svc Json.parse "owner" "repo" 10 _ _ _ _ _ E).
  - reflexivity.
  - reflexivity.
  - reflexivity.
Defined.

Lemma resolver_calls_only_witness :
  exists r s',
    resolve_release GitHub.svc "owner" "repo" 10 Examples.draft_parsed (mk_st Examples.draft_state []) =
      (r, s') /\
    svc_state s' = Examples.draft_state /\
    exists tr, trace s' = tr /\ Forall (resolver_call "v2.0.0") tr.
Proof.
  eassert (E : resolve_release GitHub.svc "owner" "repo" 10 Examples.draft_parsed
                 (mk_st Examples.draft_state []) = (?[r], ?[s])) by run_eq.
  eexists. eexists. split; [exact E |].
  exact (resolver_calls_only GitHub.svc "owner" "repo" 10 Examples.draft_parsed _ _ _ E).
Defined.

Lemma upload_error_not_retried_witness :
  exists s, exec Examples.gateway_svc Json.parse "owner" "repo" 10 Examples.dist_inputs
              Examples.dist_state = (inl (Thrown Examples.bad_gateway), s).
Proof.
  eexists.
  eapply (upload_error_not_retried Examples.gateway_svc Json.parse "owner" "repo" 10
            Examples.dist_inputs Examples.dist_state _ Examples.rel_v1 []
            "dist/a.tar.gz" ["dist/b.tar.gz"] []).
  - unfold reaches_file. do 5 eexists. repeat split; run_eq.
  - run_eq.
  - run_eq.
  - reflexivity.
Defined.

Lemma read_error_uncaught_witness :
  exists s, exec Examples.locked_svc Json.parse "owner" "repo" 10 Examples.dist_inputs
              Examples.dist_state = (inl (Thrown (Examples.eacces "dist/a.tar.gz")), s).
Proof.
  eexists.
  eapply (read_error_uncaught Examples.locked_svc Json.parse "owner" "repo" 10
            Examples.dist_inputs Examples.dist_state _ (Some Examples.rel_v1) []
            "dist/a.tar.gz" ["dist/b.tar.gz"] []).
  - unfold reaches_file. do 5 eexists. repeat split; run_eq.
  - run_eq.
Defined.

Lemma collection_error_aborts_witness :
  exists s, exec GitHub.svc Json.parse "owner" "repo" 10 Examples.dist_inputs
              Examples.dangling_state = (inl (Thrown (GitHub.enoent "dist/c.tar.gz")), s).
Proof.
  eassert (E1 : parse_inputs Json.parse Examples.dist_inputs (mk_st Examples.dangling_state []) =
                (inr ?[p], ?[s1])) by run_eq.
  match type of E1 with _ = (inr ?p, ?s1) =>
    eassert (E2 : resolve_release GitHub.svc "owner" "repo" 10 p s1 = (inr ?[rel], ?[s2]))
      by run_eq;
    match type of E2 with _ = (inr _, ?s2) =>
      eassert (E3 : collect_patterns GitHub.svc (assetPaths p) [] s2 = (inl ?[x], ?[s3]))
        by run_eq
    end
  end.
  eexists.
  exact (proj1 (collection_error_aborts GitHub.svc Json.parse "owner" "repo" 10 _ _ _ _ _ _ _ _
                  E1 E2 E3)).
Defined.

Lemma plan_uploads_duplicates_witness :
  exists tr,
    plan_uploads ["dist/a.tar.gz"; "dist/b.tar.gz"; "dist/a.tar.gz"]
      (mk_st Examples.dist_state []) =
      (inr ["dist/a.tar.gz"; "dist/b.tar.gz"], mk_st Examples.dist_state tr).
Proof.
  destruct (plan_uploads_duplicates ["dist/a.tar.gz"; "dist/b.tar.gz"; "dist/a.tar.gz"]
              (mk_st Examples.dist_state [])) as (tr & E & _).
  - discriminate.
  - exists tr. exact E.
Defined.

Lemma upload_all_targets_witness :
  exists r s',
    upload_all GitHub.svc (Some Examples.rel_v1_a) false ["dist/a.tar.gz"] []
      (mk_st Examples.conflict_state []) = (r, s') /\
    exists tr, trace s' = tr /\
      Forall (upload_target Examples.rel_v1_a false ["dist/a.tar.gz"]) tr.
Proof.
  eassert (E : upload_all GitHub.svc (Some Examples.rel_v1_a) false ["dist/a.tar.gz"] []
                 (mk_st Examples.conflict_state []) = (?[r], ?[s])) by run_eq.
  eexists. eexists. split; [exact E |].
  exact (upload_all_targets GitHub.svc _ _ _ _ _ _ _ E).
Defined.

Lemma upload_all_reads_in_order_witness :
  exists r s',
    upload_all GitHub.svc (Some Examples.rel_v1) true ["dist/a.tar.gz"; "dist/b.tar.gz"] []
      (mk_st Examples.dist_state []) = (r, s') /\
    exists tr, trace s' = tr /\
      match r with
      | inr _ => reads tr = ["dist/a.tar.gz"; "dist/b.tar.gz"]
      | inl _ => exists pre f rest, ["dist/a.tar.gz"; "dist/b.tar.gz"] = app pre (f :: rest) /\
                                    reads tr = app pre [f]
      end.
Proof.
  eassert (E : upload_all GitHub.svc (Some Examples.rel_v1) true
                 ["dist/a.tar.gz"; "dist/b.tar.gz"] [] (mk_st Examples.dist_state []) =
               (?[r], ?[s])) by run_eq.
  eexists. eexists. split; [exact E |].
  exact (upload_all_reads_in_order GitHub.svc _ _ _ _ _ _ _ E).
Defined.

Lemma listing_error_aborts_witness :
  exists tr,
    exec Examples.paging_svc Json.parse "owner" "repo" 10 Examples.draft_inputs Examples.draft_state =
      (inl (Thrown Examples.unavailable), mk_st Examples.draft_state tr) /\
    listed_pages tr = [1%Z].
Proof.
  eassert (E : parse_inputs Json.parse Examples.draft_inputs (mk_st Examples.draft_state []) =
               (inr ?[p], ?[s])) by run_eq.
  apply (listing_error_aborts Examples.paging_svc Json.parse "owner" "repo" 10 _ _ _ _ _ E).
  - left. split; [reflexivity |]. eexists. split; [vm_compute; reflexivity | reflexivity].
  - lia.
  - reflexivity.
Defined.

Lemma same_basename_fails_witness :
  exists s',
    upload_all GitHub.svc (Some Examples.rel_v1) false ["dist/a.tar.gz"; "other/a.tar.gz"] []
      (mk_st Examples.twin_state []) = (inl (Thrown GitHub.already_exists), s') /\
    In (Error (msg_asset_missing "a.tar.gz")) (trace s').
Proof.
  apply (same_basename_fails Examples.rel_v1 "dist/a.tar.gz" "other/a.tar.gz" []
           Examples.twin_state [] Examples.byte_a Examples.byte_b).
  - vm_compute. discriminate.
  - reflexivity.
  - reflexivity.
  - reflexivity.
  - reflexivity.
Defined.
